(** * Car Sales Analytics dashboard (app.py): filter compiler, aggregation
      pipelines and detail lookup

    The dashboard is a Python script over two MongoDB collections, [cars] and
    [dealers].  This development embeds the script's own functions as Rocq
    functions and gives the store the semantics the script relies on:

    - a collection is the list of its documents in natural order;
    - a document is a finite map from field names to values; a value is a
      scalar, an embedded sub-document, or an array of those;
    - numbers in documents are Python/BSON integers ([Z]); an average is a
      BSON double, kept by its value, a rational ([Q]); doubles inside
      documents are outside the model;
    - a string is the sequence of its bytes; [py_int] is [int()] on ASCII
      strings;
    - an exception raised by Python or by the driver is the [Raise] branch of
      [result]. *)

From Stdlib Require Import ZArith QArith Qabs Lia List String Ascii.
From stdpp Require Import base decidable option list gmap strings fin_maps sorting pretty.

Local Open Scope string_scope.
Local Open Scope Z_scope.

(** ** Exceptions *)

Inductive exn := TypeError | ValueError | KeyError | OperationFailure.

Inductive result (A : Type) :=
| Ok (a : A)
| Raise (e : exn).
Arguments Ok {A} a.
Arguments Raise {A} e.

#[global] Instance result_ret : MRet result := λ A a, Ok a.

#[global] Instance result_bind : MBind result := λ A B k r,
  match r with
  | Ok a => k a
  | Raise e => Raise e
  end.

#[global] Instance result_fmap : FMap result := λ A B f r,
  match r with
  | Ok a => Ok (f a)
  | Raise e => Raise e
  end.

Fixpoint rmapM {A B} (f : A → result B) (l : list A) : result (list B) :=
  match l with
  | [] => Ok []
  | x :: r => y ← f x; ys ← rmapM f r; Ok (y :: ys)
  end.

#[global] Instance exn_eq_dec : EqDecision exn.
Proof. solve_decision. Defined.

(** ** Dates

    A [datetime] is kept in civil (UTC) form.  Chronological order on civil
    fields is the lexicographic order, which is what both Python and the store
    compare by. *)

Record datetime := mk_datetime {
  dt_year : Z;
  dt_month : Z;
  dt_day : Z;
  dt_ms : Z  (* milliseconds since midnight *)
}.

#[global] Instance datetime_eq_dec : EqDecision datetime.
Proof. solve_decision. Defined.

Definition is_leap (y : Z) : bool :=
  (y mod 4 =? 0) && (negb (y mod 100 =? 0) || (y mod 400 =? 0)).

Definition days_in_month (y m : Z) : Z :=
  if m =? 2 then (if is_leap y then 29 else 28)
  else if (m =? 4) || (m =? 6) || (m =? 9) || (m =? 11) then 30
  else 31.

(** [datetime(year, month, day)]: the constructor checks its arguments and
    raises [ValueError] when the calendar has no such day. *)
Definition datetime_new (y m d : Z) : result datetime :=
  if (1 <=? y) && (y <=? 9999) && (1 <=? m) && (m <=? 12)
     && (1 <=? d) && (d <=? days_in_month y m)
  then Ok (mk_datetime y m d 0)
  else Raise ValueError.

Definition datetime_leb (a b : datetime) : bool :=
  if dt_year a <? dt_year b then true
  else if dt_year b <? dt_year a then false
  else if dt_month a <? dt_month b then true
  else if dt_month b <? dt_month a then false
  else if dt_day a <? dt_day b then true
  else if dt_day b <? dt_day a then false
  else dt_ms a <=? dt_ms b.

Definition datetime_ltb (a b : datetime) : bool := negb (datetime_leb b a).

(** ** Documents *)

Inductive scalar :=
| SNull
| SInt (n : Z)
| SStr (s : string)
| SDate (d : datetime).

#[global] Instance scalar_eq_dec : EqDecision scalar.
Proof. solve_decision. Defined.

(** An array element or embedded value: a scalar or a sub-document. *)
Inductive item :=
| Sc (v : scalar)
| Sub (m : gmap string scalar).

#[global] Instance item_eq_dec : EqDecision item.
Proof. solve_decision. Defined.

Inductive value :=
| One (i : item)
| Arr (l : list item).

#[global] Instance value_eq_dec : EqDecision value.
Proof. solve_decision. Defined.

Abbreviation doc := (gmap string value).

Definition vnull : value := One (Sc SNull).
Definition vint (n : Z) : value := One (Sc (SInt n)).
Definition vstr (s : string) : value := One (Sc (SStr s)).

(** Dealer records are flat: a dealer identifier and a display name. *)
Record database := mk_database {
  cars_coll : list doc;
  dealers_coll : list (gmap string scalar)
}.

(** ** Python string helpers *)

(** The white space [int()] skips around an ASCII literal: tab, line feed,
    vertical tab, form feed, carriage return and space. *)
Definition is_space (c : ascii) : bool :=
  let n := nat_of_ascii c in
  ((9 <=? n) && (n <=? 13))%nat || (n =? 32)%nat.

Fixpoint lstrip (s : string) : string :=
  match s with
  | String c r => if is_space c then lstrip r else s
  | EmptyString => EmptyString
  end.

Fixpoint rstrip (s : string) : string :=
  match s with
  | String c r =>
      match rstrip r with
      | EmptyString => if is_space c then EmptyString else String c EmptyString
      | r' => String c r'
      end
  | EmptyString => EmptyString
  end.

Definition strip (s : string) : string := rstrip (lstrip s).

(** [s.split(sep)] for a one-character separator: never empty. *)
Fixpoint py_split (sep : ascii) (s : string) : list string :=
  match s with
  | EmptyString => [EmptyString]
  | String c r =>
      if Ascii.eqb c sep then EmptyString :: py_split sep r
      else match py_split sep r with
           | h :: t => String c h :: t
           | [] => [String c EmptyString]
           end
  end.

Definition digit_of (c : ascii) : option Z :=
  let n := nat_of_ascii c in
  if ((48 <=? n) && (n <=? 57))%nat then Some (Z.of_nat (n - 48)) else None.

(** Digits of a decimal literal as [int()] reads them: one underscore is
    allowed between two digits.  [prev] tells whether the previous character
    was a digit. *)
Fixpoint digits_acc (prev : bool) (acc : Z) (s : string) : option Z :=
  match s with
  | EmptyString => if prev then Some acc else None
  | String c r =>
      match digit_of c with
      | Some d => digits_acc true (10 * acc + d) r
      | None =>
          if Ascii.eqb c "_"%char && prev
          then match r with
               | String c' _ => if digit_of c' is Some _ then digits_acc false acc r else None
               | EmptyString => None
               end
          else None
      end
  end.

(** [int(s)] on an ASCII string: surrounding white space is ignored, a sign
    may precede the digits, anything else raises [ValueError].  On a string
    with a character outside ASCII [int()] consults the interpreter's Unicode
    tables of white space and decimal digits, and on more digits than
    [sys.int_max_str_digits] allows (never fewer than 640) it raises; neither
    is modelled, and the statements that depend on the difference assume an
    ASCII string or bound its length. *)
Definition py_int (s : string) : result Z :=
  let body := strip s in
  let '(neg, ds) :=
    match body with
    | String "-"%char r => (true, r)
    | String "+"%char r => (false, r)
    | _ => (false, body)
    end in
  match ds with
  | String c _ =>
      if digit_of c is Some _ then
        match digits_acc false 0 ds with
        | Some n => Ok (if neg then - n else n)
        | None => Raise ValueError
        end
      else Raise ValueError
  | EmptyString => Raise ValueError
  end.

(** ** Sidebar filters *)

(** What the sidebar widgets return on one run of the script. *)
Record sidebar := mk_sidebar {
  sel_manufacturer : string;
  sel_fuel : list string;
  sel_dealer : string;
  price_range : Z * Z;
  year_range : Z * Z;
  apply_filters : bool
}.

Definition parse_dealer (value : string) : result (option Z) :=
  if String.eqb value "All" then Ok None
  else Some <$> py_int (hd "" (py_split "|"%char value)).

(** ** Query predicates

    A predicate is the dictionary handed to [$match] / [find]: field name to
    condition.  A condition is a literal (equality), [{"$in": [...]}], or a
    dictionary of comparison operators [{"$gte": lo, "$lte": hi}]. *)

Inductive cond :=
| CEq (v : scalar)
| CIn (vs : list scalar)
| CCmp (gte : option scalar) (lte : option scalar).

#[global] Instance cond_eq_dec : EqDecision cond.
Proof. solve_decision. Defined.

(** Truth value of [dealer_id_filter], an [int] or [None]. *)
Definition truthy_id (o : option Z) : bool :=
  match o with
  | None => false
  | Some n => negb (n =? 0)
  end.

Definition build_match (ui : sidebar) (dealer_id_filter : option Z) : gmap string cond :=
  let m : gmap string cond := ∅ in
  let m := if negb (String.eqb (sel_manufacturer ui) "All")
           then <["manufacturer" := CEq (SStr (sel_manufacturer ui))]> m else m in
  let m := match sel_fuel ui with
           | [] => m
           | _ :: _ => <["fuel_type" := CIn (SStr <$> sel_fuel ui)]> m
           end in
  let m := match dealer_id_filter with
           | Some n => if truthy_id dealer_id_filter then <["dealer_id" := CEq (SInt n)]> m else m
           | None => m
           end in
  let m := <["price" := CCmp (Some (SInt (fst (price_range ui)))) (Some (SInt (snd (price_range ui))))]> m in
  let m := <["year_of_manufacturing" :=
               CCmp (Some (SInt (fst (year_range ui)))) (Some (SInt (snd (year_range ui))))]> m in
  m.

(** ** Query evaluation *)

(** A dotted field path reaches into an embedded sub-document; through an
    array of sub-documents it collects the field of every element. *)
Definition get_path (p : list string) (d : doc) : option value :=
  match p with
  | [k] => d !! k
  | [k; f] =>
      match d !! k with
      | Some (One (Sub m)) => (λ v, One (Sc v)) <$> m !! f
      | Some (Arr l) =>
          Some (Arr (omap (λ i, match i with
                                | Sub m => Sc <$> m !! f
                                | Sc _ => None
                                end) l))
      | _ => None
      end
  | _ => None
  end.

(** Comparison operators only relate values of one type. *)
Definition scalar_leb (a b : scalar) : bool :=
  match a, b with
  | SNull, SNull => true
  | SInt x, SInt y => x <=? y
  | SStr x, SStr y => String.leb x y
  | SDate x, SDate y => datetime_leb x y
  | _, _ => false
  end.

Definition item_gte (lo : scalar) (i : item) : bool :=
  match i with
  | Sc v => scalar_leb lo v
  | Sub _ => false
  end.

Definition item_lte (hi : scalar) (i : item) : bool :=
  match i with
  | Sc v => scalar_leb v hi
  | Sub _ => false
  end.

(** A condition on an array field holds when some element satisfies it; a
    missing field behaves as null. *)
Definition any_item (p : item → bool) (if_missing : bool) (fv : option value) : bool :=
  match fv with
  | None => if_missing
  | Some (One i) => p i
  | Some (Arr l) => existsb p l
  end.

Definition is_null (v : scalar) : bool := bool_decide (v = SNull).

Definition field_eq (v : scalar) (fv : option value) : bool :=
  any_item (λ i, bool_decide (i = Sc v)) (is_null v) fv.

Definition holds (c : cond) (fv : option value) : bool :=
  match c with
  | CEq v => field_eq v fv
  | CIn vs => existsb (λ v, field_eq v fv) vs
  | CCmp lo hi =>
      from_option (λ lo, any_item (item_gte lo) (is_null lo) fv) true lo
      && from_option (λ hi, any_item (item_lte hi) (is_null hi) fv) true hi
  end.

Definition matches (q : gmap string cond) (d : doc) : bool :=
  bool_decide (map_Forall (λ k c, holds c (get_path (py_split "."%char k) d) = true) q).

Definition find (q : gmap string cond) (coll : list doc) : list doc :=
  filter (λ d, matches q d) coll.

Definition find_one (q : gmap string cond) (coll : list doc) : option doc :=
  head (find q coll).

(** A projection [{f1: 1, f2: 1, ...}] keeps the listed fields that exist. *)
Definition project (keep : list string) (d : doc) : doc :=
  filter (λ kv, kv.1 ∈ keep) d.

(** ** Double-precision numbers

    [$avg] returns a BSON double: an IEEE 754 binary64 number.  A finite
    double is kept by its value, a rational in lowest terms.  [round_double]
    rounds a rational to the nearest double, ties to even: 53 significant
    bits, the unit in the last place never below [2^-1074].  The sums and
    counts of the averages here are far below the largest double, so
    infinities are not represented. *)

(** The integer nearest to [n / d], ties to even, for [0 ≤ n] and [0 < d]. *)
Definition round_half_even (n d : Z) : Z :=
  let q := n / d in
  match 2 * (n mod d) ?= d with
  | Lt => q
  | Gt => q + 1
  | Eq => if Z.even q then q else q + 1
  end.

(** [a / b < 2 ^ e] for positive [a] and [b]. *)
Definition below_pow2 (a b e : Z) : bool :=
  if 0 <=? e then a <? b * 2 ^ e else a * 2 ^ (- e) <? b.

(** The exponent [e] with [2 ^ e ≤ a / b < 2 ^ (e + 1)], for positive [a], [b]. *)
Definition binary_exponent (a b : Z) : Z :=
  let e := Z.log2 a - Z.log2 b in
  if below_pow2 a b e then e - 1 else e.

(** The exponent of the unit in the last place at [a / b]. *)
Definition ulp_exponent (a b : Z) : Z := Z.max (binary_exponent a b - 52) (- 1074).

(** [m * 2 ^ t] *)
Definition dyadic (m t : Z) : Q :=
  Qred (if 0 <=? t then inject_Z (m * 2 ^ t) else m # Z.to_pos (2 ^ (- t))).

Definition round_pos (a b : Z) : Q :=
  let t := ulp_exponent a b in
  let m := if 0 <=? t then round_half_even a (b * 2 ^ t)
           else round_half_even (a * 2 ^ (- t)) b in
  dyadic m t.

Definition round_double (q : Q) : Q :=
  match Qnum q with
  | 0 => 0%Q
  | Zpos a => round_pos (Zpos a) (Zpos (Qden q))
  | Zneg a => (- round_pos (Zpos a) (Zpos (Qden q)))%Q
  end.

(** An integer as a double, and the quotient of two doubles. *)
Definition to_double (z : Z) : Q := round_double (inject_Z z).

Definition double_div (x y : Q) : Q := round_double (x / y).

(** Numerator and denominator of [a / (b * 2 ^ t)], for the statements
    about rounding. *)
Definition scaled_num (a t : Z) : Z := a * 2 ^ Z.max 0 (- t).
Definition scaled_den (b t : Z) : Z := b * 2 ^ Z.max 0 t.

(** ** Aggregation stages *)

Definition stage_match (q : gmap string cond) (docs : list doc) : list doc :=
  filter (λ d, matches q d) docs.

(** [if match: pipeline.append({"$match": match})]: an empty dictionary is
    falsy, so no stage is added for it. *)
Definition optional_match (q : gmap string cond) (docs : list doc) : list doc :=
  if bool_decide (q = ∅) then docs else stage_match q docs.

(** [$unwind]: one output document per array element, with the field
    replaced by that element; a document whose field is missing, null or an
    empty array yields nothing; any other value stands for itself. *)
Definition unwind_doc (f : string) (d : doc) : list doc :=
  match d !! f with
  | Some (Arr l) => (λ i, <[f := One i]> d) <$> l
  | Some (One (Sc SNull)) | None => []
  | Some (One _) => [d]
  end.

Definition stage_unwind (f : string) (docs : list doc) : list doc :=
  docs ≫= unwind_doc f.

(** [$group]: one accumulator per distinct [_id], created when the key is
    first seen.  The store does not fix the order in which groups come out;
    here it is the order of first occurrence, and every pipeline sorts
    afterwards. *)
Fixpoint upsert {K S} `{EqDecision K} (init : S) (step : S → S) (k : K)
    (acc : list (K * S)) : list (K * S) :=
  match acc with
  | [] => [(k, step init)]
  | (k', s) :: r =>
      if decide (k = k') then (k', step s) :: r
      else (k', s) :: upsert init step k r
  end.

Definition stage_group {A K S} `{EqDecision K} (key : A → K) (init : S)
    (step : A → S → S) (docs : list A) : list (K * S) :=
  foldl (λ acc d, upsert init (step d) (key d) acc) [] docs.

(** The value of an expression ["$field"] or ["$field.sub"]: a missing field
    groups under null. *)
Definition expr (p : list string) (d : doc) : value :=
  default vnull (get_path p d).

(** [{"$sum": 1}] *)
Definition sum_one {A} (_ : A) (n : nat) : nat := S n.

(** [{"$avg": "$price"}] keeps a running sum and count of the numeric values
    and ignores the others; with no numeric value the average is null,
    otherwise it is the sum, as a double, divided by the count, as a double. *)
Definition avg_step (p : list string) (d : doc) (acc : Z * nat) : Z * nat :=
  match get_path p d with
  | Some (One (Sc (SInt n))) => (acc.1 + n, S acc.2)
  | _ => acc
  end.

Definition avg_final (acc : Z * nat) : option Q :=
  match acc.2 with
  | O => None
  | S _ => Some (double_div (to_double acc.1) (to_double (Z.of_nat acc.2)))
  end.

(** Sort orders of the [$sort] stages.  Null sorts below every number.  The
    order among rows with equal sort keys is the store's choice; here it is
    the one [merge_sort] gives. *)
Definition count_desc {K} (a b : K * nat) : Prop := (b.2 ≤ a.2)%nat.

Definition avg_leb (a b : option Q) : bool :=
  match a, b with
  | None, _ => true
  | Some _, None => false
  | Some x, Some y => Qle_bool x y
  end.

Definition avg_desc {K} (a b : K * option Q) : Prop := avg_leb b.2 a.2 = true.

#[global] Instance count_desc_dec {K} (a b : K * nat) : Decision (count_desc a b).
Proof. unfold count_desc. apply _. Defined.
#[global] Instance avg_desc_dec {K} (a b : K * option Q) : Decision (avg_desc a b).
Proof. unfold avg_desc. apply _. Defined.

(** ** Aggregation pipelines

    Each function reads as its pipeline: the optional [$match], the stages,
    and the [$project] that renames [_id]; a row is the pair of the projected
    label and the accumulated value. *)

Definition manufacturer_distribution_pipeline (cars : list doc) (q : gmap string cond)
    : list (value * nat) :=
  merge_sort count_desc
    (stage_group (expr ["manufacturer"]) O sum_one (optional_match q cars)).

Definition avg_price_by_manufacturer_pipeline (cars : list doc) (q : gmap string cond)
    : list (value * option Q) :=
  merge_sort avg_desc
    (prod_map id avg_final
       <$> stage_group (expr ["manufacturer"]) (0, O) (avg_step ["price"])
             (optional_match q cars)).

Definition accident_severity_pipeline (cars : list doc) (q : gmap string cond)
    : list (value * nat) :=
  merge_sort count_desc
    (stage_group (expr ["accidents"; "Severity"]) O sum_one
       (stage_unwind "accidents" (optional_match q cars))).

Definition fuel_distribution_pipeline (cars : list doc) (q : gmap string cond)
    : list (value * nat) :=
  merge_sort count_desc
    (stage_group (expr ["fuel_type"]) O sum_one (optional_match q cars)).

(** [{"$year": "$services.Date_of_Service"}]: the calendar year of a date,
    null for a null or missing operand, an error for any other value. *)
Definition year_expr (d : doc) : result (option Z) :=
  match get_path ["services"; "Date_of_Service"] d with
  | Some (One (Sc (SDate t))) => Ok (Some (dt_year t))
  | Some (One (Sc SNull)) | None => Ok None
  | Some _ => Raise OperationFailure
  end.

Definition year_leb (a b : option Z) : bool :=
  match a, b with
  | None, _ => true
  | Some _, None => false
  | Some x, Some y => x <=? y
  end.

Definition year_asc (a b : option Z * nat) : Prop := year_leb a.1 b.1 = true.

#[global] Instance year_asc_dec (a b : option Z * nat) : Decision (year_asc a b).
Proof. unfold year_asc. apply _. Defined.

(** The script reads the clock three times to build the cutoff. *)
Record clock := mk_clock {
  now_1 : datetime;
  now_2 : datetime;
  now_3 : datetime
}.

Definition at_instant (t : datetime) : clock := mk_clock t t t.

Definition service_cutoff (nows : clock) : result datetime :=
  datetime_new (dt_year (now_1 nows) - 5) (dt_month (now_2 nows)) (dt_day (now_3 nows)).

(** [{"services.Date_of_Service": {"$gte": cutoff}}] *)
Definition cutoff_query (cutoff : datetime) : gmap string cond :=
  {[ "services.Date_of_Service" := CCmp (Some (SDate cutoff)) None ]}.

Definition recent_services (cutoff : datetime) (cars : list doc) (q : gmap string cond)
    : list doc :=
  stage_match (cutoff_query cutoff) (stage_unwind "services" (optional_match q cars)).

Definition service_frequency_pipeline (nows : clock) (cars : list doc)
    (q : gmap string cond) : result (list (option Z * nat)) :=
  cutoff ← service_cutoff nows;
  years ← rmapM year_expr (recent_services cutoff cars q);
  Ok (merge_sort year_asc (stage_group id O sum_one years)).

(** ** Data frames

    A frame is column-major: an index length and named columns of cells.  A
    cell is missing ([NA]: NaN or None), an object taken from a document, or
    a number produced by coercion. *)

Inductive cell :=
| NA
| Obj (v : value)
| Num (q : Q).

Record DataFrame := mk_df {
  df_index : nat;
  df_columns : list (string * list cell)
}.

Definition cell_of (o : option value) : cell :=
  match o with
  | None | Some (One (Sc SNull)) => NA
  | Some v => Obj v
  end.

Definition is_na (c : cell) : bool :=
  match c with
  | NA => true
  | _ => false
  end.

Definition is_num (c : cell) : bool :=
  match c with
  | Num _ => true
  | _ => false
  end.

Definition raw_column (c : string) (records : list doc) : list cell :=
  (λ d : doc, cell_of (d !! c)) <$> records.

(** [pd.DataFrame(records)]: one column per key that occurs in some record. *)
Definition DataFrame_of (records : list doc) : DataFrame :=
  mk_df (length records)
    ((λ c, (c, raw_column c records))
       <$> remove_dups (records ≫= (λ d : doc, (map_to_list d).*1))).

Definition df_empty (df : DataFrame) : bool :=
  bool_decide (df_index df = O) || bool_decide (df_columns df = []).

Fixpoint assoc {K V} `{EqDecision K} (k : K) (l : list (K * V)) : option V :=
  match l with
  | [] => None
  | (k', v) :: r => if decide (k = k') then Some v else assoc k r
  end.

(** [df[c]] raises [KeyError] for an unknown column. *)
Definition df_get (c : string) (df : DataFrame) : result (list cell) :=
  match assoc c (df_columns df) with
  | Some col => Ok col
  | None => Raise KeyError
  end.

(** [df[c] = col] *)
Definition df_set (c : string) (col : list cell) (df : DataFrame) : DataFrame :=
  mk_df (df_index df)
    (match assoc c (df_columns df) with
     | Some _ => (λ p, if decide (p.1 = c) then (c, col) else p) <$> df_columns df
     | None => df_columns df ++ [(c, col)]
     end).

Definition row_complete (df : DataFrame) (i : nat) : bool :=
  forallb (λ p : string * list cell,
             match p.2 !! i with
             | Some c => negb (is_na c)
             | None => false
             end) (df_columns df).

Definition kept_rows (df : DataFrame) : list nat :=
  List.filter (row_complete df) (seq 0 (df_index df)).

(** [df.dropna()]: the rows without a missing cell. *)
Definition dropna (df : DataFrame) : DataFrame :=
  mk_df (length (kept_rows df))
    (prod_map id (λ col : list cell, omap (λ i, col !! i) (kept_rows df))
       <$> df_columns df).

(** [cursor.limit(n)]: zero means no limit. *)
Definition limit_ {A} (n : nat) (l : list A) : list A :=
  match n with
  | O => l
  | S _ => take n l
  end.

Definition price_mileage_fields : list string :=
  ["_id"; "price"; "mileage"; "manufacturer"; "model"; "fuel_type"].

Definition price_mileage_cursor (cars : list doc) (q : gmap string cond) (limit : nat)
    : list doc :=
  let query := if bool_decide (q = ∅) then ∅ else q in
  limit_ limit (project price_mileage_fields <$> find query cars).

Section Pandas.
(** [pd.to_numeric(col, errors="coerce")] is taken by its contract: it
    returns a column of the same length whose cells are numbers or NaN. *)
Variable to_numeric : list cell → list cell.

Definition fetch_price_mileage (cars : list doc) (q : gmap string cond) (limit : nat)
    : result DataFrame :=
  let df := DataFrame_of (price_mileage_cursor cars q limit) in
  if df_empty df then Ok (mk_df O [])
  else
    price ← df_get "price" df;
    let df := df_set "price" (to_numeric price) df in
    mileage ← df_get "mileage" df;
    let df := df_set "mileage" (to_numeric mileage) df in
    Ok (dropna df).
End Pandas.

(** ** Vehicle list and detail lookup *)

Abbreviation dealer := (gmap string scalar).

Record car_option := mk_car_option {
  opt_id : value;
  (* the label is the f-string "{manufacturer} {model} | £{price}"; it is
     kept as the three values it prints *)
  opt_label : value * value * value
}.

(** [d[f]] on a dictionary. *)
Definition getitem {V} (d : gmap string V) (f : string) : result V :=
  match d !! f with
  | Some v => Ok v
  | None => Raise KeyError
  end.

Definition fetch_cars_list (cars : list doc) (q : gmap string cond) (limit : nat)
    : result (list car_option) :=
  let query := if bool_decide (q = ∅) then ∅ else q in
  rmapM (λ d : doc,
           i ← getitem d "_id";
           m ← getitem d "manufacturer";
           mo ← getitem d "model";
           p ← getitem d "price";
           Ok (mk_car_option i (m, mo, p)))
        (limit_ limit (project ["_id"; "manufacturer"; "model"; "price"] <$> find query cars)).

Definition get_car_detail (cars : list doc) (car_id : scalar) : option doc :=
  find_one {[ "_id" := CEq car_id ]} cars.

(** [try: car_id = int(selected_key)  except: car_id = selected_key] *)
Definition car_id_of_key (selected_key : string) : scalar :=
  match py_int selected_key with
  | Ok n => SInt n
  | Raise _ => SStr selected_key
  end.

(** [dealers_coll.find_one({"DealerID": key})] where [key] is
    [car.get("dealer_id")]: a missing field reads as [None], and a null query
    value also matches dealers without the field.  Dealer records are flat, so
    an embedded value matches none of them. *)
Definition dealer_matches (key : option value) (dl : dealer) : bool :=
  match key with
  | None => field_eq SNull ((λ s, One (Sc s)) <$> dl !! "DealerID")
  | Some (One (Sc v)) => field_eq v ((λ s, One (Sc s)) <$> dl !! "DealerID")
  | Some _ => false
  end.

Definition find_one_dealer (dealers : list dealer) (key : option value) : option dealer :=
  head (List.filter (dealer_matches key) dealers).

(** [dealer["DealerName"] if dealer else "Unknown"]: an absent result and an
    empty dictionary are both falsy. *)
Definition dealer_name (found : option dealer) : result scalar :=
  match found with
  | Some dl => if bool_decide (dl = ∅) then Ok (SStr "Unknown") else getitem dl "DealerName"
  | None => Ok (SStr "Unknown")
  end.

(** The values written under "Vehicle Summary"; [car.get(f)] is [None] for a
    missing field. *)
Record vehicle_summary := mk_summary {
  shown_manufacturer : option value;
  shown_model : option value;
  shown_price : option value;
  shown_mileage : option value;
  shown_fuel_type : option value;
  shown_engine_size : option value;
  shown_year : option value;
  shown_dealer : scalar
}.

Definition vehicle_summary_of (dealers : list dealer) (car : doc) : result vehicle_summary :=
  name ← dealer_name (find_one_dealer dealers (car !! "dealer_id"));
  Ok (mk_summary (car !! "manufacturer") (car !! "model") (car !! "price")
        (car !! "mileage") (car !! "fuel_type") (car !! "engine_size")
        (car !! "year_of_manufacturing") name).

Inductive history :=
| NoCars (msg : string)
| NoDetail
| Detail (s : vehicle_summary).

(** The history viewer up to the dealer line.  [NoCars] and [NoDetail] are
    complete branches of the source.  [Detail] says that the summary was
    written: the feature list and the service and accident tables that
    pandas builds after it (lines 322 to 350) can still raise and are not
    modelled, so no statement below concludes [Detail]. *)
Definition history_viewer (db : database) (q : gmap string cond) (selected_key : string)
    : result history :=
  cars ← fetch_cars_list (cars_coll db) q 500;
  match cars with
  | [] => Ok (NoCars "No cars available with current filters.")
  | _ :: _ =>
      let car_id := car_id_of_key selected_key in
      match get_car_detail (cars_coll db) car_id with
      | Some car =>
          if bool_decide (car = ∅) then Ok NoDetail
          else Detail <$> vehicle_summary_of (dealers_coll db) car
      | None => Ok NoDetail
      end
  end.

(** ** Python conversions used at start-up *)

Fixpoint zeros (n : nat) : string :=
  match n with
  | O => ""
  | S k => String "0"%char (zeros k)
  end.

(** [f"{n:0wd}"] for a non-negative [n]. *)
Definition pad0 (w : nat) (n : Z) : string :=
  let s := pretty n in
  zeros (w - String.length s) +:+ s.

(** [str(x)] on the scalars a driver hands back. *)
Definition py_str (v : scalar) : string :=
  match v with
  | SNull => "None"
  | SInt n => pretty n
  | SStr s => s
  | SDate t =>
      let ms := dt_ms t in
      pad0 4 (dt_year t) +:+ "-" +:+ pad0 2 (dt_month t) +:+ "-" +:+ pad0 2 (dt_day t)
      +:+ " " +:+ pad0 2 (ms / 3600000) +:+ ":" +:+ pad0 2 ((ms / 60000) mod 60)
      +:+ ":" +:+ pad0 2 ((ms / 1000) mod 60)
      +:+ (if ms mod 1000 =? 0 then "" else "." +:+ pad0 6 ((ms mod 1000) * 1000))
  end.

(** [f"{k} | {v}"], the entry of the dealer select box for the key [k] and
    the name [v] of [dealers_map]. *)
Definition dealer_label (k : string) (v : scalar) : string :=
  k +:+ " | " +:+ py_str v.

(** [int(x)] on a value read from a document. *)
Definition py_int_of (v : value) : result Z :=
  match v with
  | One (Sc (SInt n)) => Ok n
  | One (Sc (SStr s)) => py_int s
  | _ => Raise TypeError
  end.

Definition truthy_item (i : item) : bool :=
  match i with
  | Sc SNull => false
  | Sc (SInt n) => negb (n =? 0)
  | Sc (SStr s) => negb (String.eqb s "")
  | Sc (SDate _) => true
  | Sub m => negb (bool_decide (m = ∅))
  end.

(** [sorted(l)] succeeds when the elements can be compared with one another:
    at most one element, or all integers, all strings or all dates. *)
Definition sortable (l : list item) : bool :=
  (length l <=? 1)%nat
  || forallb (λ i, match i with Sc (SInt _) => true | _ => false end) l
  || forallb (λ i, match i with Sc (SStr _) => true | _ => false end) l
  || forallb (λ i, match i with Sc (SDate _) => true | _ => false end) l.

Definition sorted_truthy (l : list item) : result unit :=
  if sortable (List.filter truthy_item l) then Ok () else Raise TypeError.

(** [coll.distinct(f)]: the distinct values of a field, arrays flattened. *)
Definition distinct (f : string) (coll : list doc) : list item :=
  remove_dups (coll ≫= (λ d : doc,
                          match d !! f with
                          | None => []
                          | Some (One i) => [i]
                          | Some (Arr l) => l
                          end)).

(** [{str(d["DealerID"]): d["DealerName"] for d in dealer_docs}]: a later
    record replaces an earlier one with the same key. *)
Definition dealers_map_add (acc : result (gmap string scalar)) (d : dealer)
    : result (gmap string scalar) :=
  m ← acc;
  k ← getitem d "DealerID";
  v ← getitem d "DealerName";
  Ok (<[py_str k := v]> m).

Definition dealers_map_of (dealer_docs : list dealer) : result (gmap string scalar) :=
  foldl dealers_map_add (Ok ∅) dealer_docs.

(** [x[f]] where [x] is the result of [find_one]: [None[f]] is a
    [TypeError], a document without the field a [KeyError]. *)
Definition subscript (o : option doc) (f : string) : result value :=
  match o with
  | None => Raise TypeError
  | Some d => getitem d f
  end.

Record filter_options := mk_filter_options {
  manufacturers : list item;
  fuel_types : list item;
  dealers_map : gmap string scalar;
  MIN_PRICE : value;
  MAX_PRICE : value;
  MIN_YEAR : value;
  MAX_YEAR : value
}.

Inductive panel (A : Type) :=
| Chart (data : A)
| Info (msg : string).
Arguments Chart {A} data.
Arguments Info {A} msg.

Definition panel_of {A} (msg : string) (data : list A) : panel (list A) :=
  match data with
  | [] => Info msg
  | _ :: _ => Chart data
  end.

Record page := mk_page {
  row1_left : panel (list (value * nat));
  row1_right : panel (list (value * option Q));
  row2_left : panel (list (value * nat));
  row2_right : panel (list (value * nat));
  row3_left : panel (list (Z * nat));
  row3_right : panel DataFrame;
  car_history : history
}.

Inductive outcome :=
| Rerun
| Rendered (p : page).

(** [df["year"].astype(int)] fails on a missing year. *)
Definition years_as_int (rows : list (option Z * nat)) : result (list (Z * nat)) :=
  rmapM (λ r : option Z * nat,
           match r.1 with
           | Some y => Ok (y, r.2)
           | None => Raise (if forallb (λ r' : option Z * nat, bool_decide (r'.1 = None)) rows
                            then TypeError else ValueError)
           end) rows.

Section App.
(** The order in which the store sorts values of a field, a missing field
    included, is left to the store. *)
Variable bson_leb : option value → option value → bool.
Variable to_numeric : list cell → list cell.

(** [coll.find_one(sort=[(f, 1)])] / [sort=[(f, -1)]]: the first document
    in sort order, [None] on an empty collection. *)
Definition find_one_sorted (f : string) (ascending : bool) (coll : list doc) : option doc :=
  match coll with
  | [] => None
  | d :: r =>
      Some (foldl (λ best x : doc,
                     if (if ascending then bson_leb (best !! f) (x !! f)
                         else bson_leb (x !! f) (best !! f))
                     then best else x) d r)
  end.

Definition load_filter_options (db : database) : result filter_options :=
  let manufacturers := distinct "manufacturer" (cars_coll db) in
  let fuel_types := distinct "fuel_type" (cars_coll db) in
  let dealer_docs :=
    (λ d : dealer, filter (λ kv, kv.1 ∈ ["DealerID"; "DealerName"]) d) <$> dealers_coll db in
  dealers_map ← dealers_map_of dealer_docs;
  min_price ← subscript (find_one_sorted "price" true (cars_coll db)) "price";
  max_price ← subscript (find_one_sorted "price" false (cars_coll db)) "price";
  min_year ← subscript (find_one_sorted "year_of_manufacturing" true (cars_coll db))
               "year_of_manufacturing";
  max_year ← subscript (find_one_sorted "year_of_manufacturing" false (cars_coll db))
               "year_of_manufacturing";
  Ok (mk_filter_options manufacturers fuel_types dealers_map
        min_price max_price min_year max_year).

(** One run of the script.  The sidebar widgets return [ui], the car picker
    returns [selected_key].  The steps that are left out can only raise: the
    checks the sliders make on their bounds (lines 60 and 61), the charts,
    and what follows the dealer line in the viewer.  So when [app] raises
    the source raises, there or at a step left out before, and when [app]
    does not return [Rendered] the source does not reach the end of the
    page; [Rendered] itself only says that the steps modelled here raised
    nothing, and no statement below concludes it. *)
Definition app (db : database) (ui : sidebar) (selected_key : string) (nows : clock)
    : result outcome :=
  opts ← load_filter_options db;
  _ ← sorted_truthy (manufacturers opts);
  _ ← sorted_truthy (fuel_types opts);
  _ ← sorted_truthy (fuel_types opts);
  _ ← py_int_of (MIN_PRICE opts);
  _ ← py_int_of (MAX_PRICE opts);
  _ ← py_int_of (MIN_YEAR opts);
  _ ← py_int_of (MAX_YEAR opts);
  dealer_id_filter ← parse_dealer (sel_dealer ui);
  let q := build_match ui dealer_id_filter in
  if apply_filters ui then Ok Rerun
  else
    let cars := cars_coll db in
    let p1 := panel_of "No data available." (manufacturer_distribution_pipeline cars q) in
    let p2 := panel_of "No data available." (avg_price_by_manufacturer_pipeline cars q) in
    let p3 := panel_of "No data available." (fuel_distribution_pipeline cars q) in
    let p4 := panel_of "No accident data." (accident_severity_pipeline cars q) in
    services ← service_frequency_pipeline nows cars q;
    p5 ← match services with
         | [] => Ok (Info "No data available.")
         | _ :: _ => Chart <$> years_as_int services
         end;
    df ← fetch_price_mileage to_numeric cars q 2000;
    let p6 := if df_empty df then Info "No data available." else Chart df in
    h ← history_viewer db q selected_key;
    Ok (Rendered (mk_page p1 p2 p3 p4 p5 p6 h)).
End App.

(** ** Vocabulary of the statements *)

(** The embedded entries of an array field: a missing, null or empty field
    has none, and a single embedded value counts as one entry. *)
Definition embedded (f : string) (d : doc) : list item :=
  match d !! f with
  | Some (Arr l) => l
  | Some (One (Sc SNull)) | None => []
  | Some (One i) => [i]
  end.

(** The price of a vehicle when it is a number. *)
Definition price_of (d : doc) : option Z :=
  match d !! "price" with
  | Some (One (Sc (SInt n))) => Some n
  | _ => None
  end.

(** Arithmetic mean. *)
Definition mean (l : list Z) : Q :=
  (inject_Z (foldr Z.add 0%Z l) / inject_Z (Z.of_nat (length l)))%Q.

(** The date of an embedded service event, when it has one. *)
Definition item_date (i : item) : option datetime :=
  match i with
  | Sub m => match m !! "Date_of_Service" with
             | Some (SDate t) => Some t
             | _ => None
             end
  | Sc _ => None
  end.

Definition service_dates (d : doc) : list datetime :=
  omap item_date (embedded "services" d).

(** What the store guarantees of [_id]: every document has one, it is not an
    array, and no two documents share it. *)
Definition has_id (d : doc) : bool :=
  match d !! "_id" with
  | Some (One _) => true
  | _ => false
  end.

Definition ids_well_formed (cars : list doc) : Prop :=
  Forall (λ d, has_id d = true) cars ∧ NoDup ((λ d : doc, d !! "_id") <$> cars).

(** Strings all of whose characters satisfy a test. *)
Fixpoint all_chars (p : ascii → bool) (s : string) : bool :=
  match s with
  | EmptyString => true
  | String c r => p c && all_chars p r
  end.

Definition is_digit (c : ascii) : bool :=
  match digit_of c with
  | Some _ => true
  | None => false
  end.

Definition not_bar (c : ascii) : bool := negb (Ascii.eqb c "|"%char).

(** The sign and the digits that [py_int] separates. *)
Definition sign_of (body : string) : bool * string :=
  match body with
  | String "-"%char r => (true, r)
  | String "+"%char r => (false, r)
  | _ => (false, body)
  end.

Definition read_digits (neg : bool) (ds : string) : result Z :=
  match ds with
  | String c _ =>
      if digit_of c is Some _ then
        match digits_acc false 0 ds with
        | Some n => Ok (if neg then - n else n)
        | None => Raise ValueError
        end
      else Raise ValueError
  | EmptyString => Raise ValueError
  end.

(** A vehicle that can be listed in the car picker has the four fields the
    list reads. *)
Definition listable (d : doc) : Prop :=
  is_Some (d !! "_id") ∧ is_Some (d !! "manufacturer")
  ∧ is_Some (d !! "model") ∧ is_Some (d !! "price").

(** The entry [fetch_cars_list] builds from one projected document. *)
Definition car_option_of (d : doc) : result car_option :=
  i ← getitem d "_id";
  m ← getitem d "manufacturer";
  mo ← getitem d "model";
  p ← getitem d "price";
  Ok (mk_car_option i (m, mo, p)).

(** An entry of the car list carries the fields of a vehicle. *)
Definition listed_as (c : car_option) (d : doc) : Prop :=
  d !! "_id" = Some (opt_id c)
  ∧ d !! "manufacturer" = Some (opt_label c).1.1
  ∧ d !! "model" = Some (opt_label c).1.2
  ∧ d !! "price" = Some (opt_label c).2.

(** The key and the name a dealer record contributes to [dealers_map]. *)
Definition dealer_entry (d : dealer) : option (string * scalar) :=
  k ← d !! "DealerID"; v ← d !! "DealerName"; Some (py_str k, v).

(** The names of the dealer records filed under a key, in order. *)
Definition names_for (key : string) (dealer_docs : list dealer) : list scalar :=
  omap (λ d, e ← dealer_entry d; if decide (e.1 = key) then Some e.2 else None) dealer_docs.

(** Characters of ASCII. *)
Definition is_ascii (c : ascii) : bool := (nat_of_ascii c <? 128)%nat.

(** ** A small collection

    Three Toyota petrol vehicles priced 8000, 12000 and 16000 and two Fords,
    filtered by manufacturer Toyota, fuel in Petrol or Diesel, price in
    [5000, 20000] and year in [2015, 2023]. *)

Definition service_on (y m d : Z) : item :=
  Sub {[ "Date_of_Service" := SDate (mk_datetime y m d 0) ]}.

Definition accident_of (severity : string) : item :=
  Sub {[ "Severity" := SStr severity ]}.

Definition car1 : doc :=
  list_to_map
    [("_id", vint 1); ("manufacturer", vstr "Toyota"); ("model", vstr "Corolla");
     ("fuel_type", vstr "Petrol"); ("price", vint 8000); ("mileage", vint 42000);
     ("year_of_manufacturing", vint 2016); ("dealer_id", vint 7);
     ("accidents", Arr [accident_of "Minor"; accident_of "Major"]);
     ("services", Arr [service_on 2020 6 14; service_on 2020 6 15; service_on 2023 1 10])].

Definition car2 : doc :=
  list_to_map
    [("_id", vint 2); ("manufacturer", vstr "Toyota"); ("model", vstr "Yaris");
     ("fuel_type", vstr "Petrol"); ("price", vint 12000); ("mileage", vstr "n/a");
     ("year_of_manufacturing", vint 2018); ("dealer_id", vint 99);
     ("accidents", Arr [accident_of "Minor"]);
     ("services", Arr [service_on 2023 3 2])].

Definition car3 : doc :=
  list_to_map
    [("_id", vint 3); ("manufacturer", vstr "Toyota"); ("model", vstr "Hilux");
     ("fuel_type", vstr "Petrol"); ("price", vint 16000); ("mileage", vint 15000);
     ("year_of_manufacturing", vint 2020); ("dealer_id", vint 0)].

Definition car4 : doc :=
  list_to_map
    [("_id", vint 4); ("manufacturer", vstr "Ford"); ("model", vstr "Focus");
     ("fuel_type", vstr "Diesel"); ("price", vint 30000); ("mileage", vint 9000);
     ("year_of_manufacturing", vint 2019); ("dealer_id", vint 7);
     ("accidents", Arr [accident_of "Major"])].

Definition car5 : doc :=
  list_to_map
    [("_id", vint 5); ("manufacturer", vstr "Ford"); ("model", vstr "Fiesta");
     ("fuel_type", vstr "Petrol"); ("price", vint 9000); ("mileage", vint 61000);
     ("year_of_manufacturing", vint 2017); ("dealer_id", vint 0)].

Definition example_cars : list doc := [car1; car2; car3; car4; car5].

Definition example_dealers : list (gmap string scalar) :=
  [ {[ "DealerID" := SInt 0; "DealerName" := SStr "City Motors" ]};
    {[ "DealerID" := SInt 7; "DealerName" := SStr "Harbour Cars" ]} ].

Definition example_db : database := mk_database example_cars example_dealers.

Definition example_sidebar : sidebar :=
  mk_sidebar "Toyota" ["Petrol"; "Diesel"] "All" (5000, 20000) (2015, 2023) false.

Definition example_match : gmap string cond := build_match example_sidebar None.

(** A coercion that meets the contract of [to_numeric]: integers and integer
    literals become numbers, everything else NaN. *)
Definition coerce_cell (c : cell) : cell :=
  match c with
  | Obj (One (Sc (SInt n))) => Num (inject_Z n)
  | Obj (One (Sc (SStr s))) =>
      match py_int s with
      | Ok n => Num (inject_Z n)
      | Raise _ => NA
      end
  | Num q => Num q
  | _ => NA
  end.

Definition coerce_cells (col : list cell) : list cell := coerce_cell <$> col.

(** Two vehicles whose identifiers are strings, without dealer and mileage. *)
Definition car_text_id : doc :=
  list_to_map
    [("_id", vstr "A17"); ("manufacturer", vstr "Kia"); ("model", vstr "Rio");
     ("fuel_type", vstr "Petrol"); ("price", vint 7000);
     ("year_of_manufacturing", vint 2021)].

Definition car_digit_id : doc :=
  list_to_map
    [("_id", vstr "42"); ("manufacturer", vstr "Kia"); ("model", vstr "Ceed");
     ("fuel_type", vstr "Petrol"); ("price", vint 9500);
     ("year_of_manufacturing", vint 2022)].

Definition keyed_cars : list doc := example_cars ++ [car_text_id; car_digit_id].

Definition keyed_db : database := mk_database keyed_cars example_dealers.

Definition example_dealers_map : gmap string scalar :=
  {[ "0" := SStr "City Motors"; "7" := SStr "Harbour Cars" ]}.

(** A dealer record without an identifier. *)
Definition walk_in_dealer : gmap string scalar := {[ "DealerName" := SStr "Walk-in" ]}.

Definition example_now : clock := at_instant (mk_datetime 2025 6 15 34200000).

Definition leap_day_now : clock := at_instant (mk_datetime 2024 2 29 34200000).

Definition tesla_sidebar : sidebar :=
  mk_sidebar "Tesla" [] "All" (5000, 20000) (2015, 2023) false.

Definition any_car_sidebar : sidebar :=
  mk_sidebar "All" [] "All" (5000, 20000) (2015, 2023) false.

(** Three vehicles whose mean price, 25000 / 3, is not a double. *)
Definition kia (id price : Z) : doc :=
  list_to_map
    [("_id", vint id); ("manufacturer", vstr "Kia"); ("model", vstr "Rio");
     ("fuel_type", vstr "Petrol"); ("price", vint price); ("mileage", vint 30000);
     ("year_of_manufacturing", vint 2021)].

Definition kia_cars : list doc := [kia 11 8000; kia 12 8000; kia 13 9000].

Definition depot_sidebar : sidebar :=
  mk_sidebar "All" [] "D01 | Depot" (5000, 20000) (2015, 2023) false.

(** An order for the start-up lookups: integers by value, every other value
    (and a missing field) before them. *)
Definition int_rank (o : option value) : option Z :=
  match o with
  | Some (One (Sc (SInt n))) => Some n
  | _ => None
  end.

Definition int_leb (a b : option value) : bool :=
  match int_rank a, int_rank b with
  | None, _ => true
  | Some _, None => false
  | Some x, Some y => x <=? y
  end.

(** * Properties *)

(** ** The filter compiler *)

Lemma build_match_manufacturer ui o :
  build_match ui o !! "manufacturer"
  = if String.eqb (sel_manufacturer ui) "All" then None
    else Some (CEq (SStr (sel_manufacturer ui))).
Proof.
  unfold build_match.
  rewrite !lookup_insert_ne by done.
  destruct o as [n|]; [destruct (truthy_id (Some n))|];
    destruct (sel_fuel ui); rewrite ?lookup_insert_ne by done;
    destruct (String.eqb (sel_manufacturer ui) "All"); simpl;
    by rewrite ?lookup_insert_eq, ?lookup_empty.
Qed.

Lemma build_match_fuel_type ui o :
  build_match ui o !! "fuel_type"
  = match sel_fuel ui with
    | [] => None
    | _ :: _ => Some (CIn (SStr <$> sel_fuel ui))
    end.
Proof.
  unfold build_match.
  rewrite !lookup_insert_ne by done.
  destruct o as [n|]; [destruct (truthy_id (Some n))|];
    destruct (sel_fuel ui); rewrite ?lookup_insert_ne by done;
    rewrite ?lookup_insert_eq; try done;
    destruct (String.eqb (sel_manufacturer ui) "All"); simpl;
    by rewrite ?lookup_insert_ne, ?lookup_empty by done.
Qed.

Lemma build_match_dealer_id ui o :
  build_match ui o !! "dealer_id"
  = match o with
    | Some n => if n =? 0 then None else Some (CEq (SInt n))
    | None => None
    end.
Proof.
  unfold build_match.
  rewrite !lookup_insert_ne by done.
  destruct o as [n|]; simpl; [destruct (n =? 0); simpl|];
    rewrite ?lookup_insert_eq; try done;
    destruct (sel_fuel ui); rewrite ?lookup_insert_ne by done;
    destruct (String.eqb (sel_manufacturer ui) "All"); simpl;
    by rewrite ?lookup_insert_ne, ?lookup_empty by done.
Qed.

Lemma build_match_price ui o :
  build_match ui o !! "price"
  = Some (CCmp (Some (SInt (price_range ui).1)) (Some (SInt (price_range ui).2))).
Proof.
  unfold build_match. rewrite lookup_insert_ne by done. by rewrite lookup_insert_eq.
Qed.

Lemma build_match_year ui o :
  build_match ui o !! "year_of_manufacturing"
  = Some (CCmp (Some (SInt (year_range ui).1)) (Some (SInt (year_range ui).2))).
Proof. unfold build_match. by rewrite lookup_insert_eq. Qed.

Lemma build_match_nonempty ui o : build_match ui o ≠ ∅.
Proof.
  intros E. pose proof (build_match_year ui o) as H.
  rewrite E in H. by rewrite lookup_empty in H.
Qed.

(** C1, at dealer id 0.  The sidebar entry of the dealer whose [DealerID]
    is 0 parses to the set dealer id 0, and the predicate compiled for it has
    no dealer constraint: [if dealer_id_filter:] takes 0 for unset. *)
Theorem build_match_dealer_zero :
  parse_dealer "0 | City Motors" = Ok (Some 0)
  ∧ ∀ ui, build_match ui (Some 0) !! "dealer_id" = None.
Proof.
  split; [reflexivity|].
  intros ui. by rewrite build_match_dealer_id.
Qed.

(** ** Query evaluation and grouping *)

Lemma matches_empty d : matches ∅ d = true.
Proof. unfold matches. apply bool_decide_eq_true. apply map_Forall_empty. Qed.

Lemma optional_match_find q cars : optional_match q cars = find q cars.
Proof.
  unfold optional_match, find, stage_match. case_bool_decide as E; [|done].
  subst q. induction cars as [|d cars IH]; [done|].
  rewrite filter_cons_True; [by rewrite <- IH|].
  by rewrite matches_empty.
Qed.

Section group.
Context {A K S : Type} `{EqDecision K}.
Implicit Types (acc : list (K * S)) (k : K).

Lemma assoc_upsert init f k k' acc :
  assoc k' (upsert init f k acc)
  = if decide (k' = k) then Some (f (default init (assoc k acc))) else assoc k' acc.
Proof.
  induction acc as [|[k0 s0] acc IH]; simpl.
  - repeat case_decide; simplify_eq; done.
  - repeat (case_decide; simpl; simplify_eq); try done.
    all: rewrite IH; by rewrite ?decide_True, ?decide_False by done.
Qed.

Lemma upsert_keys init f k acc :
  (upsert init f k acc).*1 = if decide (k ∈ acc.*1) then acc.*1 else (acc.*1 ++ [k])%list.
Proof.
  induction acc as [|[k0 s0] acc IH]; csimpl; [done|].
  destruct (decide (k = k0)) as [->|Hne]; csimpl.
  - rewrite decide_True; [done|]. apply list_elem_of_here.
  - rewrite IH. destruct (decide (k ∈ acc.*1)) as [Hin|Hnin].
    + rewrite decide_True; [done|]. by apply list_elem_of_further.
    + rewrite decide_False; [done|].
      intros Hin. apply elem_of_cons in Hin as [?|?]; done.
Qed.

Lemma upsert_NoDup init f k acc : NoDup acc.*1 → NoDup (upsert init f k acc).*1.
Proof.
  intros Hnd. rewrite upsert_keys. case_decide as Hin; [done|].
  apply NoDup_app. split_and!; [done| |apply NoDup_singleton].
  intros x Hx Hx'. apply list_elem_of_singleton in Hx'. by subst.
Qed.

Context (key : A → K) (init : S) (step : A → S → S).

Lemma foldl_upsert_NoDup docs acc :
  NoDup acc.*1 →
  NoDup (foldl (λ acc d, upsert init (step d) (key d) acc) acc docs).*1.
Proof.
  revert acc. induction docs as [|d docs IH]; intros acc Hnd; simpl; [done|].
  apply IH. by apply upsert_NoDup.
Qed.

Lemma stage_group_NoDup docs : NoDup (stage_group key init step docs).*1.
Proof. apply foldl_upsert_NoDup. constructor. Qed.

Lemma foldl_upsert_assoc docs acc k :
  assoc k (foldl (λ acc d, upsert init (step d) (key d) acc) acc docs)
  = match filter (λ d, key d = k) docs with
    | [] => assoc k acc
    | g => Some (foldl (λ s d, step d s) (default init (assoc k acc)) g)
    end.
Proof.
  revert acc. induction docs as [|d docs IH]; intros acc; simpl; [done|].
  rewrite IH, assoc_upsert. rewrite filter_cons.
  destruct (decide (key d = k)) as [<-|Hne].
  - rewrite decide_True by done. simpl.
    by destruct (filter (λ d0, key d0 = key d) docs).
  - by rewrite decide_False by done.
Qed.

(** The row of a key holds the accumulator run over exactly the documents
    with that key, and a key without documents has no row. *)
Lemma stage_group_assoc docs k :
  assoc k (stage_group key init step docs)
  = match filter (λ d, key d = k) docs with
    | [] => None
    | g => Some (foldl (λ s d, step d s) init g)
    end.
Proof. unfold stage_group. by rewrite foldl_upsert_assoc. Qed.
End group.

Lemma assoc_Some_elem {K V} `{EqDecision K} (l : list (K * V)) k v :
  NoDup l.*1 → assoc k l = Some v ↔ (k, v) ∈ l.
Proof.
  induction l as [|[k0 v0] l IH]; simpl; intros Hnd.
  - split; [done|]. by intros ?%not_elem_of_nil.
  - apply NoDup_cons in Hnd as [Hk0 Hnd]. case_decide as E.
    + subst k0. split.
      * intros [= ->]. apply list_elem_of_here.
      * intros [[= ->]|Hin]%elem_of_cons; [done|].
        exfalso. apply Hk0. apply list_elem_of_fmap. by exists (k, v).
    + rewrite (IH Hnd). split.
      * apply list_elem_of_further.
      * intros [[= ? ?]|Hin]%elem_of_cons; [by subst|done].
  Qed.

Lemma assoc_Permutation {K V} `{EqDecision K} (l l' : list (K * V)) k :
  NoDup l.*1 → l ≡ₚ l' → assoc k l = assoc k l'.
Proof.
  intros Hnd Hp.
  assert (NoDup l'.*1) as Hnd' by by rewrite <- Hp.
  apply option_eq. intros v.
  rewrite !assoc_Some_elem by done. by rewrite Hp.
Qed.

Lemma assoc_fmap_snd {K V W} `{EqDecision K} (f : V → W) (l : list (K * V)) k :
  assoc k (prod_map id f <$> l) = f <$> assoc k l.
Proof.
  induction l as [|[k0 v0] l IH]; simpl; [done|]. by case_decide.
Qed.

Lemma foldl_sum_one {A} (g : list A) n :
  foldl (λ s d, sum_one d s) n g = (n + length g)%nat.
Proof.
  revert n. induction g as [|x g IH]; intros n; simpl; [lia|].
  rewrite IH. unfold sum_one. lia.
Qed.

Lemma upsert_sum_one {A K} `{EqDecision K} (d : A) (k : K) (acc : list (K * nat)) :
  sum_list (upsert O (sum_one d) k acc).*2 = S (sum_list acc.*2).
Proof.
  induction acc as [|[k0 n0] acc IH]; csimpl; [done|].
  case_decide; csimpl; [done|]. rewrite IH. lia.
Qed.

Lemma stage_group_count_sum {A K} `{EqDecision K} (key : A → K) (docs : list A) :
  sum_list (stage_group key O sum_one docs).*2 = length docs.
Proof.
  unfold stage_group.
  assert (∀ acc : list (K * nat),
    sum_list (foldl (λ acc d, upsert O (sum_one d) (key d) acc) acc docs).*2
    = (sum_list acc.*2 + length docs)%nat) as Hgen.
  { induction docs as [|d docs IH]; intros acc; simpl; [lia|].
    rewrite IH, upsert_sum_one. lia. }
  by rewrite Hgen.
Qed.

(** ** Sort orders *)

#[global] Instance count_desc_trans {K} : Transitive (@count_desc K).
Proof. intros a b c. unfold count_desc. lia. Qed.
#[global] Instance count_desc_total {K} : Total (@count_desc K).
Proof. intros a b. unfold count_desc. lia. Qed.

Lemma avg_leb_trans a b c : avg_leb a b = true → avg_leb b c = true → avg_leb a c = true.
Proof.
  destruct a as [x|], b as [y|], c as [z|]; simpl; try done.
  rewrite !Qle_bool_iff. apply Qle_trans.
Qed.

Lemma avg_leb_total a b : avg_leb a b = true ∨ avg_leb b a = true.
Proof.
  destruct a as [x|], b as [y|]; simpl; auto.
  rewrite !Qle_bool_iff. destruct (Qlt_le_dec x y) as [Hlt|Hle]; [left|right]; [|done].
  by apply Qlt_le_weak.
Qed.

#[global] Instance avg_desc_trans {K} : Transitive (@avg_desc K).
Proof. intros a b c Hab Hbc. unfold avg_desc in *. by eapply avg_leb_trans. Qed.
#[global] Instance avg_desc_total {K} : Total (@avg_desc K).
Proof. intros a b. unfold avg_desc. destruct (avg_leb_total b.2 a.2); auto. Qed.

Lemma year_leb_trans a b c : year_leb a b = true → year_leb b c = true → year_leb a c = true.
Proof.
  destruct a as [x|], b as [y|], c as [z|]; simpl; try done.
  rewrite !Z.leb_le. lia.
Qed.

#[global] Instance year_asc_trans : Transitive year_asc.
Proof. intros a b c. unfold year_asc. apply year_leb_trans. Qed.
#[global] Instance year_asc_total : Total year_asc.
Proof.
  intros [[x|] ?] [[y|] ?]; unfold year_asc; simpl; auto.
  rewrite !Z.leb_le. lia.
Qed.

(** ** Distributions *)

(** C3.  The counts of the manufacturer distribution sum to the number of
    vehicles matching the predicate, and so do the counts of the fuel-type
    distribution: every vehicle falls in exactly one group of each. *)
Theorem distribution_counts_sum (cars : list doc) (q : gmap string cond) :
  sum_list (manufacturer_distribution_pipeline cars q).*2 = length (find q cars)
  ∧ sum_list (fuel_distribution_pipeline cars q).*2 = length (find q cars).
Proof.
  unfold manufacturer_distribution_pipeline, fuel_distribution_pipeline.
  rewrite !merge_sort_Permutation, !stage_group_count_sum.
  by rewrite optional_match_find.
Qed.

Lemma count_rows_assoc {A K} `{EqDecision K} (R : relation (K * nat))
    `{∀ x y, Decision (R x y)} (key : A → K) (docs : list A) (k : K) :
  assoc k (merge_sort R (stage_group key O sum_one docs))
  = match filter (λ d, key d = k) docs with
    | [] => None
    | g => Some (length g)
    end.
Proof.
  rewrite <- (assoc_Permutation (stage_group key O sum_one docs)).
  - rewrite stage_group_assoc.
    destruct (filter (λ d, key d = k) docs) as [|x g]; [done|].
    by rewrite foldl_sum_one.
  - apply stage_group_NoDup.
  - by rewrite merge_sort_Permutation.
Qed.

(** ** Accident severity *)

Lemma unwind_doc_length f d : length (unwind_doc f d) = length (embedded f d).
Proof.
  unfold unwind_doc, embedded.
  destruct (d !! f) as [[[[]|]|l]|]; simpl; try done.
  by rewrite length_fmap.
Qed.

Lemma stage_unwind_length f docs :
  length (stage_unwind f docs) = sum_list_with (λ d, length (embedded f d)) docs.
Proof.
  unfold stage_unwind. induction docs as [|d docs IH]; [done|].
  rewrite bind_cons, length_app, IH, unwind_doc_length. done.
Qed.


(** ** Rounding to double precision *)

Lemma round_half_even_exact (c d : Z) : 0 < d → round_half_even (c * d) d = c.
Proof.
  intros Hd. unfold round_half_even.
  rewrite Z.mod_mul, Z.div_mul by lia.
  change (2 * 0) with 0. by destruct (Z.compare_spec 0 d); try lia.
Qed.

Lemma round_half_even_error (n d : Z) :
  0 ≤ n → 0 < d → 2 * Z.abs (round_half_even n d * d - n) ≤ d.
Proof.
  intros Hn Hd. unfold round_half_even.
  pose proof (Z.div_mod n d ltac:(lia)) as Hdm.
  pose proof (Z.mod_pos_bound n d Hd) as Hr.
  destruct (Z.compare_spec (2 * (n mod d)) d) as [E|E|E].
  - destruct (Z.even (n / d)); nia.
  - nia.
  - nia.
Qed.

Lemma below_pow2_scaled a b e :
  below_pow2 a b e = (scaled_num a e <? scaled_den b e).
Proof.
  unfold below_pow2, scaled_num, scaled_den.
  destruct (Z.leb_spec 0 e).
  - rewrite (Z.max_l 0 (- e)), (Z.max_r 0 e) by lia. by rewrite Z.mul_1_r.
  - rewrite (Z.max_r 0 (- e)), (Z.max_l 0 e) by lia. by rewrite Z.mul_1_r.
Qed.

Lemma scaled_succ a b e :
  0 < a → 0 < b →
  (scaled_num a (e + 1) = scaled_num a e ∧ scaled_den b (e + 1) = 2 * scaled_den b e ∧ 0 ≤ e)
  ∨ (2 * scaled_num a (e + 1) = scaled_num a e ∧ scaled_den b (e + 1) = scaled_den b e ∧ e < 0).
Proof.
  intros Ha Hb. unfold scaled_num, scaled_den.
  destruct (Z.leb_spec 0 e).
  - left. rewrite !(Z.max_l 0 (- _)), !(Z.max_r 0) by lia.
    rewrite Z.pow_add_r by lia. split_and!; lia.
  - right. rewrite !(Z.max_r 0 (- _)), !(Z.max_l 0) by lia.
    replace (- e) with (- (e + 1) + 1) by lia. rewrite Z.pow_add_r by lia.
    split_and!; lia.
Qed.

Lemma scaled_pos a b t :
  0 < a → 0 < b → 0 < scaled_num a t ∧ 0 < scaled_den b t.
Proof.
  intros Ha Hb. unfold scaled_num, scaled_den.
  pose proof (Z.pow_pos_nonneg 2 (Z.max 0 (- t)) ltac:(lia) ltac:(lia)).
  pose proof (Z.pow_pos_nonneg 2 (Z.max 0 t) ltac:(lia) ltac:(lia)).
  split; nia.
Qed.

(** The ratio of two positive numbers lies between the powers of two that
    their logarithms give. *)
Lemma log2_ratio a b :
  0 < a → 0 < b →
  let e := Z.log2 a - Z.log2 b in
  scaled_den b e < 2 * scaled_num a e ∧ scaled_num a e < 2 * scaled_den b e.
Proof.
  intros Ha Hb e.
  destruct (Z.log2_spec a Ha) as [Ha1 Ha2]. destruct (Z.log2_spec b Hb) as [Hb1 Hb2].
  pose proof (Z.log2_nonneg a). pose proof (Z.log2_nonneg b).
  rewrite Z.pow_succ_r in Ha2, Hb2 by done.
  unfold scaled_num, scaled_den. subst e.
  set (la := Z.log2 a) in *. set (lb := Z.log2 b) in *.
  destruct (Z.leb_spec 0 (la - lb)).
  - rewrite (Z.max_l 0 (- _)), (Z.max_r 0) by lia.
    assert (2 ^ la = 2 ^ lb * 2 ^ (la - lb)) as Hs.
    { rewrite <- Z.pow_add_r by lia. f_equal. lia. }
    pose proof (Z.pow_pos_nonneg 2 (la - lb) ltac:(lia) ltac:(lia)).
    rewrite Z.pow_0_r. nia.
  - rewrite (Z.max_r 0 (- _)), (Z.max_l 0) by lia.
    assert (2 ^ lb = 2 ^ la * 2 ^ (- (la - lb))) as Hs.
    { rewrite <- Z.pow_add_r by lia. f_equal. lia. }
    pose proof (Z.pow_pos_nonneg 2 (- (la - lb)) ltac:(lia) ltac:(lia)).
    rewrite Z.pow_0_r. nia.
Qed.

Lemma binary_exponent_spec a b :
  0 < a → 0 < b →
  let e := binary_exponent a b in
  scaled_den b e ≤ scaled_num a e ∧ scaled_num a e < 2 * scaled_den b e.
Proof.
  intros Ha Hb. unfold binary_exponent.
  destruct (log2_ratio a b Ha Hb) as [Hlo Hhi].
  set (e0 := Z.log2 a - Z.log2 b) in *.
  rewrite below_pow2_scaled.
  destruct (Z.ltb_spec (scaled_num a e0) (scaled_den b e0)) as [Hlt|Hge]; simpl.
  - destruct (scaled_succ a b (e0 - 1) Ha Hb) as [(Hn & Hd & _)|(Hn & Hd & _)];
      replace (e0 - 1 + 1) with e0 in Hn, Hd by lia; lia.
  - lia.
Qed.

(** The value of [dyadic]. *)
Lemma dyadic_value m t :
  (dyadic m t * inject_Z (2 ^ Z.max 0 (- t)) == inject_Z (m * 2 ^ Z.max 0 t))%Q.
Proof.
  unfold dyadic. rewrite Qred_correct.
  destruct (Z.leb_spec 0 t).
  - rewrite (Z.max_l 0 (- t)), (Z.max_r 0 t) by lia. rewrite Z.pow_0_r.
    by rewrite Qmult_1_r.
  - rewrite (Z.max_r 0 (- t)), (Z.max_l 0 t) by lia. rewrite Z.pow_0_r, Z.mul_1_r.
    pose proof (Z.pow_pos_nonneg 2 (- t) ltac:(lia) ltac:(lia)).
    unfold Qeq, Qmult, inject_Z. simpl. rewrite Pos.mul_1_r, Z2Pos.id by done. lia.
Qed.

Lemma round_pos_scaled a b :
  round_pos a b
  = dyadic (round_half_even (scaled_num a (ulp_exponent a b)) (scaled_den b (ulp_exponent a b)))
      (ulp_exponent a b).
Proof.
  unfold round_pos, scaled_num, scaled_den. set (t := ulp_exponent a b).
  destruct (Z.leb_spec 0 t).
  - rewrite (Z.max_l 0 (- t)), (Z.max_r 0 t) by lia. by rewrite Z.pow_0_r, Z.mul_1_r.
  - rewrite (Z.max_r 0 (- t)), (Z.max_l 0 t) by lia. by rewrite Z.pow_0_r, Z.mul_1_r.
Qed.

Lemma Qred_inject_Z (k : Z) : Qred (inject_Z k) = inject_Z k.
Proof.
  unfold Qred, inject_Z.
  pose proof (Z.ggcd_gcd k 1) as Hg. pose proof (Z.ggcd_correct_divisors k 1) as Hd.
  destruct (Z.ggcd k 1) as [g [x y]]. simpl in *.
  rewrite Z.gcd_1_r in Hg. subst g. destruct Hd as [Hx Hy].
  replace x with k by lia. replace y with 1 by lia. done.
Qed.

Lemma dyadic_integer (m t k : Z) :
  m * 2 ^ Z.max 0 t = k * 2 ^ Z.max 0 (- t) → dyadic m t = inject_Z k.
Proof.
  intros Hm. rewrite <- (Qred_inject_Z k). unfold dyadic. apply Qred_complete.
  destruct (Z.leb_spec 0 t).
  - rewrite (Z.max_l 0 (- t)), (Z.max_r 0 t) in Hm by lia.
    rewrite Z.pow_0_r in Hm. rewrite Hm. by rewrite Z.mul_1_r.
  - rewrite (Z.max_r 0 (- t)), (Z.max_l 0 t) in Hm by lia.
    rewrite Z.pow_0_r in Hm.
    pose proof (Z.pow_pos_nonneg 2 (- t) ltac:(lia) ltac:(lia)).
    unfold Qeq, inject_Z. simpl. rewrite Z2Pos.id by done. lia.
Qed.

Lemma binary_exponent_below a b n :
  0 < a → 0 < b → 0 ≤ n → a < b * 2 ^ n → binary_exponent a b < n.
Proof.
  intros Ha Hb Hn Hlt.
  destruct (binary_exponent_spec a b Ha Hb) as [Hlo _].
  destruct (Z.lt_ge_cases (binary_exponent a b) n) as [|Hge]; [done|exfalso].
  set (e := binary_exponent a b) in *. unfold scaled_num, scaled_den in Hlo.
  rewrite (Z.max_l 0 (- e)), (Z.max_r 0 e), Z.pow_0_r in Hlo by lia.
  pose proof (Z.pow_le_mono_r 2 n e ltac:(lia) Hge).
  pose proof (Z.pow_pos_nonneg 2 n ltac:(lia) Hn). nia.
Qed.

Lemma binary_exponent_above a b n :
  0 < a → 0 < b → 0 ≤ n → b < a * 2 ^ n → - n - 1 < binary_exponent a b.
Proof.
  intros Ha Hb Hn Hlt.
  destruct (binary_exponent_spec a b Ha Hb) as [_ Hhi].
  destruct (Z.lt_ge_cases (- n - 1) (binary_exponent a b)) as [|Hge]; [done|exfalso].
  set (e := binary_exponent a b) in *. unfold scaled_num, scaled_den in Hhi.
  rewrite (Z.max_r 0 (- e)), (Z.max_l 0 e), Z.pow_0_r in Hhi by lia.
  pose proof (Z.pow_le_mono_r 2 (n + 1) (- e) ltac:(lia) ltac:(lia)) as Hp.
  rewrite Z.pow_add_r in Hp by lia.
  pose proof (Z.pow_pos_nonneg 2 n ltac:(lia) Hn). nia.
Qed.

(** A quotient that is an integer below [2 ^ 53] is a double. *)
Lemma round_pos_exact (a b k : Z) :
  0 < a → 0 < b → a = k * b → k < 2 ^ 53 → round_pos a b = inject_Z k.
Proof.
  intros Ha Hb Hk Hlt.
  assert (binary_exponent a b < 53) as He.
  { apply binary_exponent_below; [done..|]. nia. }
  rewrite round_pos_scaled. unfold ulp_exponent.
  set (t := Z.max (binary_exponent a b - 52) (- 1074)).
  assert (t ≤ 0) as Ht by lia.
  apply dyadic_integer. unfold scaled_num, scaled_den.
  rewrite (Z.max_l 0 t), (Z.max_r 0 (- t)), Z.pow_0_r, !Z.mul_1_r by lia.
  pose proof (Z.pow_pos_nonneg 2 (- t) ltac:(lia) ltac:(lia)).
  replace (a * 2 ^ (- t)) with (k * 2 ^ (- t) * b) by (rewrite Hk; ring).
  by rewrite round_half_even_exact.
Qed.

Lemma round_double_exact (q : Q) (k : Z) :
  (q == inject_Z k)%Q → Z.abs k < 2 ^ 53 → round_double q = inject_Z k.
Proof.
  destruct q as [n d]. unfold Qeq, round_double. simpl. intros Hq Hk.
  destruct n as [|a|a].
  - by replace k with 0 by lia.
  - apply round_pos_exact; lia.
  - rewrite (round_pos_exact (Z.pos a) (Z.pos d) (- k)) by lia.
    unfold Qopp, inject_Z. simpl. by rewrite Z.opp_involutive.
Qed.

(** In the normal range the rounded value is within half a unit in the last
    place, that is within a relative error of [2 ^ -53]. *)
Lemma round_half_even_close (a b : Z) :
  0 < a → 0 < b → - 1022 ≤ binary_exponent a b →
  let t := ulp_exponent a b in
  2 ^ 53 * Z.abs (round_half_even (scaled_num a t) (scaled_den b t) * scaled_den b t
                  - scaled_num a t)
  ≤ scaled_num a t.
Proof.
  intros Ha Hb He t.
  destruct (binary_exponent_spec a b Ha Hb) as [Hlo _].
  destruct (scaled_pos a b t Ha Hb) as [Hn Hd].
  pose proof (round_half_even_error (scaled_num a t) (scaled_den b t) ltac:(lia) Hd) as Herr.
  assert (2 ^ 52 * scaled_den b t ≤ scaled_num a t) as Hscale.
  { unfold t, ulp_exponent. rewrite Z.max_l by lia.
    set (e := binary_exponent a b) in *. unfold scaled_num, scaled_den in *.
    destruct (Z.leb_spec 52 e); [|destruct (Z.leb_spec 0 e)].
    - rewrite (Z.max_l 0 (- (e - 52))), (Z.max_r 0 (e - 52)), Z.pow_0_r by lia.
      rewrite (Z.max_l 0 (- e)), (Z.max_r 0 e), Z.pow_0_r in Hlo by lia.
      replace e with (52 + (e - 52)) in Hlo by lia. rewrite Z.pow_add_r in Hlo by lia. lia.
    - rewrite (Z.max_r 0 (- (e - 52))), (Z.max_l 0 (e - 52)), Z.pow_0_r by lia.
      rewrite (Z.max_l 0 (- e)), (Z.max_r 0 e), Z.pow_0_r in Hlo by lia.
      assert (2 ^ 52 = 2 ^ e * 2 ^ (- (e - 52))) as ->.
      { rewrite <- Z.pow_add_r by lia. f_equal. lia. }
      pose proof (Z.pow_pos_nonneg 2 (- (e - 52)) ltac:(lia) ltac:(lia)). nia.
    - rewrite (Z.max_r 0 (- (e - 52))), (Z.max_l 0 (e - 52)), Z.pow_0_r by lia.
      rewrite (Z.max_r 0 (- e)), (Z.max_l 0 e), Z.pow_0_r in Hlo by lia.
      replace (- (e - 52)) with (52 + - e) by lia. rewrite Z.pow_add_r by lia. nia. }
  change (2 ^ 53) with (2 ^ 52 * 2). nia.
Qed.

Lemma round_pos_close (a b : positive) :
  - 1022 ≤ binary_exponent (Z.pos a) (Z.pos b) →
  (Qabs (round_pos (Z.pos a) (Z.pos b) - (Z.pos a # b)) <= (Z.pos a # b) * (1 # 2 ^ 53))%Q.
Proof.
  intros He.
  pose proof (round_half_even_close (Z.pos a) (Z.pos b) ltac:(lia) ltac:(lia) He) as Herr.
  destruct (scaled_pos (Z.pos a) (Z.pos b) (ulp_exponent (Z.pos a) (Z.pos b))
              ltac:(lia) ltac:(lia)) as [Hn Hd].
  rewrite round_pos_scaled. simpl in Herr.
  set (t := ulp_exponent (Z.pos a) (Z.pos b)) in *.
  set (m := round_half_even _ _) in *.
  pose proof (dyadic_value m t) as Hv.
  unfold scaled_num, scaled_den in *.
  set (P := 2 ^ Z.max 0 (- t)) in *. set (R := 2 ^ Z.max 0 t) in *.
  assert (0 < P) as HP by (apply Z.pow_pos_nonneg; lia).
  assert (0 < R) as HR by (apply Z.pow_pos_nonneg; lia).
  assert (dyadic m t == (m * R) # Z.to_pos P)%Q as Heq.
  { revert Hv. generalize (dyadic m t). intros [vn vd]. unfold Qeq, Qmult, inject_Z. simpl.
    rewrite Z2Pos.id by done. lia. }
  rewrite Heq.
  apply Qabs_Qle_condition.
  unfold Qle, Qminus, Qplus, Qopp, Qmult. simpl.
  rewrite !Pos2Z.inj_mul, !Z2Pos.id by done.
  change (Z.pos (2 ^ 53)) with (2 ^ 53).
  split; nia.
Qed.

Lemma round_double_close (q : Q) :
  ¬ (q == 0)%Q →
  - 1022 ≤ binary_exponent (Z.abs (Qnum q)) (Z.pos (Qden q)) →
  (Qabs (round_double q - q) <= Qabs q * (1 # 2 ^ 53))%Q.
Proof.
  destruct q as [[|a|a] d]; intros Hq He.
  - by destruct Hq.
  - exact (round_pos_close a d He).
  - pose proof (round_pos_close a d He) as H.
    change (Qabs (- round_pos (Z.pos a) (Z.pos d) - (Z.neg a # d))
            <= (Z.pos a # d) * (1 # 2 ^ 53))%Q.
    assert (- round_pos (Z.pos a) (Z.pos d) - (Z.neg a # d)
            == - (round_pos (Z.pos a) (Z.pos d) - (Z.pos a # d)))%Q as Heq.
    { generalize (round_pos (Z.pos a) (Z.pos d)). intros [vn vd].
      unfold Qeq, Qminus, Qplus, Qopp. simpl. lia. }
    rewrite Heq, Qabs_opp. exact H.
Qed.

(** ** Average price *)

Lemma foldl_avg_step (g : list doc) (acc : Z * nat) :
  foldl (λ s d, avg_step ["price"] d s) acc g
  = (acc.1 + foldr Z.add 0 (omap price_of g), (acc.2 + length (omap price_of g))%nat).
Proof.
  revert acc. induction g as [|d g IH]; intros [s c]; csimpl.
  - f_equal; lia.
  - rewrite IH. unfold avg_step, price_of. simpl get_path.
    destruct (d !! "price") as [[[[]|]|]|]; simpl; f_equal; lia.
Qed.

Lemma omap_price_of_length (g : list doc) :
  Forall (λ d, is_Some (price_of d)) g → length (omap price_of g) = length g.
Proof.
  induction 1 as [|d g [p Hp] _ IH]; csimpl; [done|].
  rewrite Hp. csimpl. by rewrite IH.
Qed.

Lemma prod_map_keys {K V W} (f : V → W) (l : list (K * V)) :
  (prod_map id f <$> l).*1 = l.*1.
Proof. induction l as [|[k v] l IH]; csimpl; [done|]. by rewrite IH. Qed.

Lemma mean_ratio (x : Z) (l : list Z) :
  mean (x :: l) = Qmake (foldr Z.add 0 (x :: l) * 1) (Pos.of_succ_nat (length l)).
Proof. reflexivity. Qed.

Lemma avg_final_mean (l : list Z) :
  l ≠ [] → Z.abs (foldr Z.add 0 l) < 2 ^ 53 → Z.of_nat (length l) < 2 ^ 53 →
  avg_final (foldr Z.add 0 l, length l) = Some (round_double (mean l)).
Proof.
  intros Hne Hsum Hlen. destruct l as [|x l]; [done|].
  unfold avg_final, to_double, double_div, mean.
  cbn [snd fst length].
  rewrite (round_double_exact (inject_Z (foldr Z.add 0 (x :: l))) (foldr Z.add 0 (x :: l)))
    by done.
  rewrite (round_double_exact (inject_Z (Z.of_nat (S (length l)))) (Z.of_nat (S (length l))));
    [done..|].
  simpl length in Hlen. lia.
Qed.

Lemma mean_close (l : list Z) :
  l ≠ [] → Z.of_nat (length l) < 2 ^ 53 →
  (Qabs (round_double (mean l) - mean l) <= Qabs (mean l) * (1 # 2 ^ 53))%Q.
Proof.
  intros Hne Hlen. destruct l as [|x l]; [done|]. rewrite mean_ratio.
  set (s := foldr Z.add 0 (x :: l)). rewrite Z.mul_1_r.
  simpl length in Hlen. rewrite Nat2Z.inj_succ, <- Zpos_P_of_succ_nat in Hlen.
  rewrite <- SuccNat2Pos.inj_succ in Hlen || idtac.
  destruct (decide (s = 0)) as [->|Hs].
  - unfold Qle. simpl. lia.
  - apply round_double_close.
    + unfold Qeq. simpl. lia.
    + cbn [Qnum Qden].
      pose proof (binary_exponent_above (Z.abs s) (Z.pos (Pos.of_succ_nat (length l))) 53
                    ltac:(lia) ltac:(lia) ltac:(lia)) as He.
      assert (Z.pos (Pos.of_succ_nat (length l)) < Z.abs s * 2 ^ 53) as Hlt.
      { rewrite Zpos_P_of_succ_nat in *. lia. }
      specialize (He Hlt). lia.
Qed.

Lemma mean_integer (l : list Z) (k : Z) :
  l ≠ [] → Z.abs (foldr Z.add 0 l) < 2 ^ 53 →
  foldr Z.add 0 l = k * Z.of_nat (length l) →
  round_double (mean l) = inject_Z k.
Proof.
  intros Hne Hsum Hk. destruct l as [|x l]; [done|].
  apply round_double_exact.
  - rewrite mean_ratio. unfold Qeq. cbn [Qnum Qden inject_Z].
    rewrite Hk. simpl length. rewrite Zpos_P_of_succ_nat, Nat2Z.inj_succ. lia.
  - simpl length in Hk. nia.
Qed.

(** C2.  The average-price rows hold a row for manufacturer [M] exactly when
    some matching vehicle has manufacturer [M].  When the prices of those
    vehicles are integers whose sum and number are below [2 ^ 53], the row's
    [avg_price] is their arithmetic mean rounded to a double: it is within a
    relative error of [2 ^ -53] of the mean, and it is the mean when the mean
    is an integer.  The rows are in descending order of [avg_price]. *)
Theorem avg_price_spec (cars : list doc) (q : gmap string cond) (M : value) :
  let rows := avg_price_by_manufacturer_pipeline cars q in
  let vs := filter (λ d, expr ["manufacturer"] d = M) (find q cars) in
  let prices := omap price_of vs in
  (is_Some (assoc M rows) ↔ vs ≠ [])
  ∧ (vs ≠ [] → Forall (λ d, is_Some (price_of d)) vs →
     Z.abs (foldr Z.add 0 prices) < 2 ^ 53 → Z.of_nat (length prices) < 2 ^ 53 →
     assoc M rows = Some (Some (round_double (mean prices)))
     ∧ (Qabs (round_double (mean prices) - mean prices)
        <= Qabs (mean prices) * (1 # 2 ^ 53))%Q
     ∧ ∀ k, foldr Z.add 0 prices = k * Z.of_nat (length prices) →
            round_double (mean prices) = inject_Z k)
  ∧ NoDup rows.*1
  ∧ StronglySorted avg_desc rows.
Proof.
  intros rows vs prices. subst rows. unfold avg_price_by_manufacturer_pipeline.
  rewrite optional_match_find.
  set (groups := stage_group (expr ["manufacturer"]) (0, O) (avg_step ["price"]) (find q cars)).
  assert (NoDup (prod_map id avg_final <$> groups).*1) as Hnd.
  { rewrite prod_map_keys. apply stage_group_NoDup. }
  assert (assoc M (merge_sort avg_desc (prod_map id avg_final <$> groups))
          = avg_final <$> match vs with
                          | [] => None
                          | g => Some (foldl (λ s d, avg_step ["price"] d s) (0, O) g)
                          end) as Hrow.
  { rewrite <- (assoc_Permutation (prod_map id avg_final <$> groups)); [|done|].
    - rewrite assoc_fmap_snd. unfold groups. rewrite stage_group_assoc.
      unfold vs. by destruct (filter _ _).
    - by rewrite merge_sort_Permutation. }
  split_and!.
  - rewrite Hrow. destruct vs; simpl.
    + split; [by intros [? ?]|done].
    + split; [done|]. intros _. by eexists.
  - intros Hne Hnum Hsum Hlen.
    assert (prices ≠ []) as Hprices.
    { intros E. apply Hne. apply length_zero_iff_nil.
      rewrite <- (omap_price_of_length _ Hnum). fold prices. by rewrite E. }
    split_and!.
    + rewrite Hrow.
      assert (match vs with
              | [] => None
              | g => Some (foldl (λ s d, avg_step ["price"] d s) (0, O) g)
              end = Some (foldr Z.add 0 prices, length prices)) as ->.
      { destruct vs as [|d g]; [done|]. rewrite foldl_avg_step.
        unfold prices. cbn [fst snd]. by rewrite Z.add_0_l. }
      rewrite <- (avg_final_mean prices) by done. reflexivity.
    + by apply mean_close.
    + intros k Hk. by apply mean_integer.
  - by rewrite merge_sort_Permutation.
  - apply StronglySorted_merge_sort; apply _.
Qed.

(** Every predicate the filter compiler produces selects vehicles with a
    numeric price, as long as the price is not an array. *)
Lemma build_match_price_numeric ui o (d : doc) :
  matches (build_match ui o) d = true →
  (∀ l, d !! "price" ≠ Some (Arr l)) →
  is_Some (price_of d).
Proof.
  intros Hm Harr. unfold matches in Hm. apply bool_decide_eq_true in Hm.
  pose proof (map_Forall_lookup_1 _ _ _ _ Hm (build_match_price ui o)) as Hp.
  change (py_split "." "price") with ["price"] in Hp. simpl in Hp.
  unfold price_of. destruct (d !! "price") as [[[[]|]|l]|]; simpl in Hp; try done.
  by destruct (Harr l).
Qed.

(** ** Service frequency *)

Lemma datetime_leb_refl t : datetime_leb t t = true.
Proof.
  unfold datetime_leb. rewrite !Z.ltb_irrefl. apply Z.leb_refl.
Qed.

Lemma datetime_leb_total a b : datetime_leb a b = true ∨ datetime_leb b a = true.
Proof.
  unfold datetime_leb.
  repeat (case_match; try (by auto)); rewrite ?Z.leb_le in *; lia.
Qed.

Lemma datetime_leb_trans a b c :
  datetime_leb a b = true → datetime_leb b c = true → datetime_leb a c = true.
Proof.
  unfold datetime_leb.
  repeat (case_match; try done); rewrite ?Z.leb_le, ?Z.ltb_lt, ?Z.ltb_ge in *; lia.
Qed.

Lemma datetime_leb_antisym a b :
  datetime_leb a b = true → datetime_leb b a = true → a = b.
Proof.
  destruct a, b. unfold datetime_leb. simpl.
  repeat (case_match; try done); rewrite ?Z.leb_le, ?Z.ltb_lt, ?Z.ltb_ge in *;
    intros; f_equal; lia.
Qed.

Lemma bool_decide_eq_true_id (b : bool) : bool_decide (b = true) = b.
Proof. by destruct b. Qed.

Lemma cutoff_query_matches cutoff (d : doc) i :
  d !! "services" = Some (One i) →
  matches (cutoff_query cutoff) d
  = match item_date i with
    | Some t => datetime_leb cutoff t
    | None => false
    end.
Proof.
  intros Hd. unfold matches, cutoff_query.
  erewrite bool_decide_ext; [|apply map_Forall_singleton].
  rewrite bool_decide_eq_true_id.
  change (py_split "." "services.Date_of_Service") with ["services"; "Date_of_Service"].
  unfold get_path. rewrite Hd. unfold item_date.
  destruct i as [v|m]; simpl; [done|].
  destruct (m !! "Date_of_Service") as [[]|]; simpl; rewrite ?andb_true_r; done.
Qed.

Lemma year_expr_dated (d : doc) i t :
  d !! "services" = Some (One i) → item_date i = Some t →
  year_expr d = Ok (Some (dt_year t)).
Proof.
  intros Hd Ht. unfold year_expr, get_path. rewrite Hd.
  destruct i as [v|m]; simpl in *; [done|].
  destruct (m !! "Date_of_Service") as [[]|]; simpl in *; by simplify_eq.
Qed.

Lemma rmapM_app {A B} (f : A → result B) (l1 l2 : list A) ys1 ys2 :
  rmapM f l1 = Ok ys1 → rmapM f l2 = Ok ys2 → rmapM f (l1 ++ l2) = Ok (ys1 ++ ys2)%list.
Proof.
  revert ys1. induction l1 as [|x l1 IH]; intros ys1; simpl.
  - by intros [= <-].
  - destruct (f x) as [y|e]; simpl; [|done].
    destruct (rmapM f l1) as [ys|e]; simpl; [|done].
    intros [= <-] H2. by rewrite (IH ys eq_refl H2).
Qed.

(** The events of one vehicle that pass the cutoff, with their years. *)
Lemma recent_years_items cutoff (d : doc) (items : list item) :
  rmapM year_expr
    (filter (λ d', matches (cutoff_query cutoff) d') ((λ i, <["services" := One i]> d) <$> items))
  = Ok ((λ t, Some (dt_year t))
          <$> filter (λ t, datetime_leb cutoff t) (omap item_date items)).
Proof.
  induction items as [|i items IH]; [done|].
  rewrite fmap_cons, filter_cons.
  assert ((<["services" := One i]> d : doc) !! "services" = Some (One i)) as Hi
    by apply lookup_insert_eq.
  rewrite (cutoff_query_matches _ _ _ Hi). csimpl.
  destruct (item_date i) as [t|] eqn:Ht.
  - rewrite filter_cons. destruct (datetime_leb cutoff t) eqn:Hle.
    + simpl. rewrite (year_expr_dated _ _ _ Hi Ht). simpl. by rewrite IH.
    + simpl. apply IH.
  - simpl. apply IH.
Qed.

Lemma recent_years_doc cutoff (d : doc) :
  rmapM year_expr (filter (λ d', matches (cutoff_query cutoff) d') (unwind_doc "services" d))
  = Ok ((λ t, Some (dt_year t))
          <$> filter (λ t, datetime_leb cutoff t) (service_dates d)).
Proof.
  unfold service_dates, unwind_doc, embedded.
  destruct (d !! "services") as [[i|l]|] eqn:Hd.
  - assert (rmapM year_expr (filter (λ d', matches (cutoff_query cutoff) d') [d])
            = Ok ((λ t, Some (dt_year t))
                    <$> filter (λ t, datetime_leb cutoff t) (omap item_date [i]))) as H.
    { pose proof (recent_years_items cutoff d [i]) as H.
      rewrite <- H. f_equal. f_equal. simpl. f_equal.
      symmetry. by apply insert_id. }
    destruct i as [[]|]; try done.
  - apply recent_years_items.
  - done.
Qed.

Lemma recent_years cutoff (docs : list doc) :
  rmapM year_expr (stage_match (cutoff_query cutoff) (stage_unwind "services" docs))
  = Ok ((λ t, Some (dt_year t))
          <$> filter (λ t, datetime_leb cutoff t) (docs ≫= service_dates)).
Proof.
  unfold stage_match, stage_unwind.
  induction docs as [|d docs IH]; [done|].
  rewrite !bind_cons, !filter_app, fmap_app.
  apply rmapM_app; [apply recent_years_doc|apply IH].
Qed.

Lemma year_rows_filter cutoff (dates : list datetime) (y : Z) :
  filter (λ k, id k = Some y)
    ((λ t, Some (dt_year t)) <$> filter (λ t, datetime_leb cutoff t) dates)
  = (λ t, Some (dt_year t))
      <$> filter (λ t, datetime_leb cutoff t = true ∧ dt_year t = y) dates.
Proof.
  induction dates as [|t dates IH]; [done|].
  rewrite !(filter_cons _ t). destruct (datetime_leb cutoff t) eqn:Hle.
  - rewrite decide_True by done. rewrite fmap_cons, filter_cons, IH. unfold id.
    destruct (decide (dt_year t = y)) as [Hy|Hy].
    + rewrite decide_True by by rewrite Hy. by rewrite decide_True by done.
    + rewrite decide_False by by intros [= ?]. rewrite decide_False; [done|].
      by intros [_ ?].
  - rewrite decide_False by (by intros []). rewrite IH.
    rewrite decide_False; [done|]. by intros [? _].
Qed.

Lemma service_cutoff_fields nows cutoff :
  service_cutoff nows = Ok cutoff →
  cutoff = mk_datetime (dt_year (now_1 nows) - 5) (dt_month (now_2 nows))
             (dt_day (now_3 nows)) 0.
Proof.
  unfold service_cutoff, datetime_new. case_match; [|done]. by intros [= <-].
Qed.

(** C5.  With the cutoff at midnight of the same month and day five years
    before the clock readings, the row of a year counts the service events of
    the matching vehicles dated in that year on or after the cutoff: an event
    dated at the cutoff is counted, events strictly before it are not; the
    rows are in ascending order of year. *)
Theorem service_frequency_spec (nows : clock) (cutoff : datetime)
    (cars : list doc) (q : gmap string cond) :
  service_cutoff nows = Ok cutoff →
  let dates := find q cars ≫= service_dates in
  ∃ rows,
    service_frequency_pipeline nows cars q = Ok rows
    ∧ cutoff = mk_datetime (dt_year (now_1 nows) - 5) (dt_month (now_2 nows))
                 (dt_day (now_3 nows)) 0
    ∧ (∀ y, assoc (Some y) rows
            = match filter (λ t, datetime_leb cutoff t = true ∧ dt_year t = y) dates with
              | [] => None
              | g => Some (length g)
              end)
    ∧ assoc None rows = None
    ∧ (cutoff ∈ dates → ∃ n, assoc (Some (dt_year cutoff)) rows = Some (S n))
    ∧ (∀ y, (∀ t, t ∈ dates → dt_year t = y → datetime_ltb t cutoff = true) →
            assoc (Some y) rows = None)
    ∧ NoDup rows.*1
    ∧ StronglySorted year_asc rows.
Proof.
  intros Hc dates. unfold service_frequency_pipeline. rewrite Hc. simpl.
  unfold recent_services. rewrite optional_match_find, recent_years. simpl.
  eexists. split; [reflexivity|].
  fold dates.
  assert (∀ y, assoc (Some y)
                 (merge_sort year_asc
                    (stage_group id O sum_one
                       ((λ t, Some (dt_year t)) <$> filter (λ t, datetime_leb cutoff t) dates)))
               = match filter (λ t, datetime_leb cutoff t = true ∧ dt_year t = y) dates with
                 | [] => None
                 | g => Some (length g)
                 end) as Hrow.
  { intros y. rewrite count_rows_assoc, year_rows_filter.
    destruct (filter _ dates); [done|]. csimpl. by rewrite length_fmap. }
  split_and!.
  - by apply service_cutoff_fields.
  - apply Hrow.
  - rewrite count_rows_assoc.
    destruct (filter _ (_ <$> _)) as [|k g] eqn:E; [done|].
    assert (k ∈ k :: g) as Hk by apply list_elem_of_here.
    rewrite <- E in Hk. apply list_elem_of_filter in Hk as [Hk1 Hk2].
    apply list_elem_of_fmap in Hk2 as (t & -> & _). done.
  - intros Hin. rewrite Hrow.
    destruct (filter (λ t, datetime_leb cutoff t = true ∧ dt_year t = dt_year cutoff) dates)
      as [|t g] eqn:E.
    + exfalso. apply (filter_nil_not_elem_of _ _ cutoff) in E; [done|].
      simpl. split; [apply datetime_leb_refl|done].
    + by exists (length g).
  - intros y Hy. rewrite Hrow.
    destruct (filter (λ t, datetime_leb cutoff t = true ∧ dt_year t = y) dates)
      as [|t g] eqn:E; [done|].
    assert (t ∈ filter (λ t, datetime_leb cutoff t = true ∧ dt_year t = y) dates)
      as Ht by (rewrite E; apply list_elem_of_here).
    apply list_elem_of_filter in Ht as [[Hle Hty] Hin].
    specialize (Hy t Hin Hty). unfold datetime_ltb in Hy. by rewrite Hle in Hy.
  - rewrite merge_sort_Permutation. apply stage_group_NoDup.
  - apply StronglySorted_merge_sort; apply _.
Qed.

Lemma leap_minus_5 y : is_leap y = true → is_leap (y - 5) = false.
Proof.
  unfold is_leap. intros H. apply andb_true_iff in H as [H4 _].
  apply Z.eqb_eq in H4. apply andb_false_iff. left. apply Z.eqb_neq.
  intros H. apply Z.mod_divide in H4, H; [|lia..].
  destruct H4 as [a Ha], H as [b Hb]. lia.
Qed.

(** C9.  When the clock reads February 29 of a leap year, the day the cutoff
    asks for, February 29 five years earlier, does not exist: the constructor
    raises and the transform returns no rows. *)
Theorem service_frequency_leap_day (nows : clock) (cars : list doc) (q : gmap string cond) :
  is_leap (dt_year (now_1 nows)) = true →
  dt_month (now_2 nows) = 2 →
  dt_day (now_3 nows) = 29 →
  service_cutoff nows = Raise ValueError
  ∧ service_frequency_pipeline nows cars q = Raise ValueError.
Proof.
  intros Hleap Hm Hd.
  assert (service_cutoff nows = Raise ValueError) as Hc.
  { unfold service_cutoff, datetime_new, days_in_month.
    rewrite Hm, Hd, (leap_minus_5 _ Hleap). simpl.
    by rewrite !andb_false_r. }
  split; [done|]. unfold service_frequency_pipeline. by rewrite Hc.
Qed.

(** ** Start-up *)

Lemma dealers_map_of_raise (docs : list dealer) e :
  foldl dealers_map_add (Raise e) docs = Raise e.
Proof. induction docs as [|d docs IH]; [done|]. simpl. apply IH. Qed.

Lemma dealers_map_add_ok m (d : dealer) :
  dealers_map_add (Ok m) d
  = match d !! "DealerID", d !! "DealerName" with
    | Some k, Some v => Ok (<[py_str k := v]> m)
    | _, _ => Raise KeyError
    end.
Proof.
  unfold dealers_map_add, getitem. simpl.
  by destruct (d !! "DealerID"), (d !! "DealerName").
Qed.

Lemma dealers_map_of_result (docs : list dealer) :
  (Forall (λ d : dealer, is_Some (d !! "DealerID") ∧ is_Some (d !! "DealerName")) docs →
   ∃ m, dealers_map_of docs = Ok m)
  ∧ (¬ Forall (λ d : dealer, is_Some (d !! "DealerID") ∧ is_Some (d !! "DealerName")) docs →
     dealers_map_of docs = Raise KeyError).
Proof.
  unfold dealers_map_of. generalize (∅ : gmap string scalar).
  induction docs as [|d docs IH]; intros m.
  - split; [by eexists|]. intros H. destruct H. constructor.
  - change (foldl dealers_map_add (Ok m) (d :: docs))
      with (foldl dealers_map_add (dealers_map_add (Ok m) d) docs).
    rewrite dealers_map_add_ok.
    destruct (d !! "DealerID") as [k|] eqn:Hk.
    + destruct (d !! "DealerName") as [v|] eqn:Hv.
      * destruct (IH (<[py_str k := v]> m)) as [IH1 IH2]. split.
        -- intros H. apply Forall_cons in H as [_ H]. by apply IH1.
        -- intros H. apply IH2. intros H'. apply H. constructor; [|done].
           rewrite Hk, Hv. split; by eexists.
      * rewrite dealers_map_of_raise. split; [|done].
        intros H. apply Forall_cons in H as [[_ [? H]] _]. by rewrite Hv in H.
    + rewrite dealers_map_of_raise. split; [|done].
      intros H. apply Forall_cons in H as [[[? H] _] _]. by rewrite Hk in H.
Qed.

Lemma project_dealer_fields (d : dealer) f :
  f ∈ ["DealerID"; "DealerName"] →
  (filter (λ kv : string * scalar, kv.1 ∈ ["DealerID"; "DealerName"]) d) !! f = d !! f.
Proof.
  intros Hf. apply option_eq. intros v.
  rewrite map_lookup_filter_Some. simpl. split; [by intros [? _]|by intros ?].
Qed.

(** C10.  On an empty vehicles collection the start-up computation raises:
    [find_one] returns nothing and the script subscripts it ([TypeError]);
    the script stops there, before any panel is produced.  (With a dealer
    record lacking a field the same call has already raised [KeyError].) *)
Theorem empty_collection_startup
    (bson_leb : option value → option value → bool) (to_numeric : list cell → list cell)
    (dealers : list dealer) (ui : sidebar) (selected_key : string) (nows : clock) :
  let db := mk_database [] dealers in
  find_one_sorted bson_leb "price" true (cars_coll db) = None
  ∧ ∃ e,
      load_filter_options bson_leb db = Raise e
      ∧ app bson_leb to_numeric db ui selected_key nows = Raise e
      ∧ (Forall (λ d : dealer, is_Some (d !! "DealerID") ∧ is_Some (d !! "DealerName")) dealers →
         e = TypeError).
Proof.
  intros db. split; [done|].
  unfold app, load_filter_options. simpl.
  set (docs := (λ d : dealer, filter _ d) <$> dealers).
  destruct (dealers_map_of_result docs) as [Hok Hraise].
  destruct (dealers_map_of docs) as [m|e] eqn:E; simpl.
  - exists TypeError. done.
  - exists e. split_and!; [done..|].
    intros Hwf. destruct Hok as [m Hm]; [|done].
    unfold docs. apply Forall_fmap. eapply Forall_impl; [exact Hwf|].
    intros d [H1 H2]. simpl.
    rewrite !project_dealer_fields; [done|set_solver..].
Qed.

(** ** Detail lookup *)

Lemma NoDup_fmap_elem_inj {A B} (f : A → B) (l : list A) x y :
  NoDup (f <$> l) → x ∈ l → y ∈ l → f x = f y → x = y.
Proof.
  induction l as [|a l IH]; csimpl; intros Hnd Hx Hy Hf.
  - by apply not_elem_of_nil in Hx.
  - apply NoDup_cons in Hnd as [Ha Hnd].
    apply elem_of_cons in Hx as [->|Hx], Hy as [->|Hy]; [done| | |by apply IH].
    + destruct Ha. rewrite Hf. by apply list_elem_of_fmap_2.
    + destruct Ha. rewrite <- Hf. by apply list_elem_of_fmap_2.
Qed.

Lemma ids_well_formed_elim (cars : list doc) :
  ids_well_formed cars →
  (∀ d, d ∈ cars → ∃ i, d !! "_id" = Some (One i))
  ∧ (∀ d1 d2, d1 ∈ cars → d2 ∈ cars → d1 !! "_id" = d2 !! "_id" → d1 = d2).
Proof.
  intros [Hid Hnd]. split.
  - intros d Hd. rewrite Forall_forall in Hid. specialize (Hid d Hd).
    unfold has_id in Hid. destruct (d !! "_id") as [[i|]|]; [by exists i|done..].
  - intros d1 d2. by apply NoDup_fmap_elem_inj.
Qed.

Lemma id_query_matches (car_id : scalar) (d : doc) i :
  d !! "_id" = Some (One i) →
  matches {[ "_id" := CEq car_id ]} d = bool_decide (i = Sc car_id).
Proof.
  intros Hd. unfold matches.
  erewrite bool_decide_ext; [|apply map_Forall_singleton].
  rewrite bool_decide_eq_true_id.
  change (py_split "." "_id") with ["_id"]. simpl. by rewrite Hd.
Qed.

Lemma get_car_detail_found (cars : list doc) (car_id : scalar) (d : doc) :
  ids_well_formed cars → d ∈ cars → d !! "_id" = Some (One (Sc car_id)) →
  get_car_detail cars car_id = Some d.
Proof.
  intros [Hid Huniq]%ids_well_formed_elim Hin Hd. unfold get_car_detail, find_one, find.
  destruct (filter _ cars) as [|d' ds] eqn:E.
  - exfalso. refine (filter_nil_not_elem_of _ _ d E _ Hin).
    simpl. rewrite (id_query_matches _ _ _ Hd). by rewrite bool_decide_true.
  - simpl. f_equal.
    assert (d' ∈ d' :: ds) as Hd' by apply list_elem_of_here.
    rewrite <- E in Hd'. apply list_elem_of_filter in Hd' as [Hm Hin'].
    destruct (Hid d' Hin') as [i Hi].
    rewrite (id_query_matches _ _ _ Hi) in Hm. apply bool_decide_unpack in Hm. subst i.
    apply Huniq; [done..|]. by rewrite Hi, Hd.
Qed.

Lemma get_car_detail_not_found (cars : list doc) (car_id : scalar) :
  ids_well_formed cars →
  (∀ d, d ∈ cars → d !! "_id" ≠ Some (One (Sc car_id))) →
  get_car_detail cars car_id = None.
Proof.
  intros [Hid _]%ids_well_formed_elim Hno. unfold get_car_detail, find_one, find.
  destruct (filter _ cars) as [|d' ds] eqn:E; [done|]. exfalso.
  assert (d' ∈ d' :: ds) as Hd' by apply list_elem_of_here.
  rewrite <- E in Hd'. apply list_elem_of_filter in Hd' as [Hm Hin'].
  destruct (Hid d' Hin') as [i Hi].
  rewrite (id_query_matches _ _ _ Hi) in Hm. apply bool_decide_unpack in Hm. subst i.
  by apply (Hno d').
Qed.


(** ** Dealer name *)

Lemma find_one_dealer_None (dealers : list dealer) key :
  find_one_dealer dealers key = None ↔ ∀ dl, dl ∈ dealers → dealer_matches key dl = false.
Proof.
  unfold find_one_dealer. induction dealers as [|dl dealers IH]; simpl.
  - split; [|done]. by intros _ dl ?%not_elem_of_nil.
  - destruct (dealer_matches key dl) eqn:E; simpl.
    + split; [done|]. intros H. specialize (H dl (list_elem_of_here _ _)). congruence.
    + rewrite IH. split.
      * intros H dl' [->|?]%elem_of_cons; auto.
      * intros H dl' ?. apply H. by apply list_elem_of_further.
Qed.

Lemma find_one_dealer_Some (dealers : list dealer) key dl :
  find_one_dealer dealers key = Some dl → dl ∈ dealers ∧ dealer_matches key dl = true.
Proof.
  unfold find_one_dealer. induction dealers as [|dl' dealers IH]; simpl; [done|].
  destruct (dealer_matches key dl') eqn:E; simpl.
  - intros [= <-]. split; [apply list_elem_of_here|done].
  - intros H. destruct (IH H). split; [by apply list_elem_of_further|done].
Qed.

Lemma dealer_matches_scalar (v : scalar) (dl : dealer) :
  v ≠ SNull →
  dealer_matches (Some (One (Sc v))) dl = bool_decide (dl !! "DealerID" = Some v).
Proof.
  intros Hv. unfold dealer_matches, field_eq.
  destruct (dl !! "DealerID") as [w|]; simpl.
  - apply bool_decide_ext. split; [by intros [= ->]|by intros [= ->]].
  - unfold is_null. by apply bool_decide_false.
Qed.

(** C8, with the placeholder as the script spells it.  For a vehicle whose
    dealer id is [v]: when no dealer record has that id the lookup raises
    nothing and the dealer shown is the string "Unknown"; when one has, the
    dealer shown is the display name of the first such record. *)
Theorem dealer_name_spec (dealers : list dealer) (car : doc) (v : scalar) :
  v ≠ SNull →
  car !! "dealer_id" = Some (One (Sc v)) →
  ((∀ dl, dl ∈ dealers → dl !! "DealerID" ≠ Some v) →
     ∃ s, vehicle_summary_of dealers car = Ok s ∧ shown_dealer s = SStr "Unknown")
  ∧ ((∃ dl, dl ∈ dealers ∧ dl !! "DealerID" = Some v) →
     ∃ dl, find_one_dealer dealers (car !! "dealer_id") = Some dl
       ∧ dl ∈ dealers ∧ dl !! "DealerID" = Some v
       ∧ ∀ name, dl !! "DealerName" = Some name →
           ∃ s, vehicle_summary_of dealers car = Ok s ∧ shown_dealer s = name).
Proof.
  intros Hv Hcar. unfold vehicle_summary_of. rewrite Hcar. split.
  - intros Hno.
    assert (find_one_dealer dealers (Some (One (Sc v))) = None) as ->.
    { apply find_one_dealer_None. intros dl Hdl.
      rewrite dealer_matches_scalar by done. apply bool_decide_false. by apply Hno. }
    simpl. by eexists.
  - intros (dl0 & Hin0 & Hid0).
    destruct (find_one_dealer dealers (Some (One (Sc v)))) as [dl|] eqn:E.
    + apply find_one_dealer_Some in E as [Hin Hm].
      rewrite dealer_matches_scalar in Hm by done. apply bool_decide_eq_true in Hm.
      exists dl. split_and!; [done..|].
      intros name Hname. unfold dealer_name, getitem.
      rewrite bool_decide_false, Hname; [simpl; by eexists|].
      intros ->. by rewrite lookup_empty in Hname.
    + exfalso. rewrite find_one_dealer_None in E. specialize (E dl0 Hin0).
      rewrite dealer_matches_scalar in E by done.
      by apply bool_decide_eq_false in E.
Qed.

(** C8 as stated fails on the spelling of the placeholder: with no dealer
    record, the name shown is "Unknown", which is not the string "unknown". *)
Lemma dealer_placeholder_spelling :
  ∃ s, vehicle_summary_of [] (<["dealer_id" := vint 7]> ∅) = Ok s
       ∧ shown_dealer s = SStr "Unknown"
       ∧ shown_dealer s ≠ SStr "unknown".
Proof. eexists. split; [reflexivity|]. by split. Qed.

(** ** Price-vs-mileage sample *)

Lemma assoc_Some_in {K V} `{EqDecision K} (l : list (K * V)) k v :
  assoc k l = Some v → (k, v) ∈ l.
Proof.
  induction l as [|[k0 v0] l IH]; simpl; [done|].
  case_decide as E.
  - intros [= <-]. subst. apply list_elem_of_here.
  - intros H. apply list_elem_of_further. by apply IH.
Qed.

Lemma assoc_tabulate {K V} `{EqDecision K} (F : K → V) (l : list K) k :
  assoc k ((λ c, (c, F c)) <$> l) = if decide (k ∈ l) then Some (F k) else None.
Proof.
  induction l as [|k0 l IH]; csimpl; [done|].
  destruct (decide (k = k0)) as [->|Hne].
  - rewrite decide_True; [done|]. apply list_elem_of_here.
  - rewrite IH. destruct (decide (k ∈ l)) as [Hin|Hnin].
    + rewrite decide_True; [done|]. by apply list_elem_of_further.
    + rewrite decide_False; [done|]. intros [?|?]%elem_of_cons; done.
Qed.

Lemma DataFrame_of_column (records : list doc) c :
  Exists (λ d : doc, is_Some (d !! c)) records →
  assoc c (df_columns (DataFrame_of records)) = Some (raw_column c records).
Proof.
  intros Hex. unfold DataFrame_of. simpl. rewrite assoc_tabulate.
  rewrite decide_True; [done|].
  apply elem_of_remove_dups. apply Exists_exists in Hex as (d & Hd & [v Hv]).
  apply list_elem_of_bind. exists d. split; [|done].
  apply list_elem_of_fmap. exists (c, v). split; [done|].
  by apply elem_of_map_to_list.
Qed.

Lemma assoc_replace_ne {V} (c c' : string) (col : V) (l : list (string * V)) :
  c' ≠ c →
  assoc c' ((λ p, if decide (p.1 = c) then (c, col) else p) <$> l) = assoc c' l.
Proof.
  intros Hne. induction l as [|[c0 col0] l IH]; csimpl; [done|].
  destruct (decide (c0 = c)) as [->|Hc0]; simpl.
  - rewrite !decide_False by done. apply IH.
  - destruct (decide (c' = c0)); [done|]. apply IH.
Qed.

Lemma assoc_replace_eq {V} (c : string) (col : V) (l : list (string * V)) :
  is_Some (assoc c l) →
  assoc c ((λ p, if decide (p.1 = c) then (c, col) else p) <$> l) = Some col.
Proof.
  induction l as [|[c0 col0] l IH]; csimpl; [by intros [? ?]|].
  destruct (decide (c0 = c)) as [->|Hc0]; simpl.
  - by rewrite !decide_True by done.
  - rewrite !decide_False by done. apply IH.
Qed.

Lemma DataFrame_of_no_column (records : list doc) c :
  ¬ Exists (λ d : doc, is_Some (d !! c)) records →
  assoc c (df_columns (DataFrame_of records)) = None.
Proof.
  intros Hex. unfold DataFrame_of. simpl. rewrite assoc_tabulate.
  rewrite decide_False; [done|]. intros Hin. apply Hex.
  apply elem_of_remove_dups, list_elem_of_bind in Hin as (d & Hc & Hd).
  apply list_elem_of_fmap in Hc as ([c' v] & -> & Hv).
  apply elem_of_map_to_list in Hv.
  apply Exists_exists. exists d. split; [done|]. by exists v.
Qed.

Lemma df_set_column c col (df : DataFrame) c' :
  is_Some (assoc c (df_columns df)) →
  assoc c' (df_columns (df_set c col df))
  = if decide (c' = c) then Some col else assoc c' (df_columns df).
Proof.
  intros Hold. unfold df_set. destruct Hold as [old Hold]. rewrite Hold. simpl.
  destruct (decide (c' = c)) as [->|Hne].
  - apply assoc_replace_eq. by eexists.
  - by apply assoc_replace_ne.
Qed.

Lemma df_get_column c (df : DataFrame) col :
  assoc c (df_columns df) = Some col → df_get c df = Ok col.
Proof. intros H. unfold df_get. by rewrite H. Qed.

Lemma kept_rows_elem (df : DataFrame) i :
  i ∈ kept_rows df ↔ (i < df_index df)%nat ∧ row_complete df i = true.
Proof.
  unfold kept_rows. rewrite list_elem_of_In, filter_In, in_seq. split.
  - intros [[_ ?] ?]. split; [lia|done].
  - intros [? ?]. split; [lia|done].
Qed.

Lemma kept_rows_length (df : DataFrame) : (length (kept_rows df) ≤ df_index df)%nat.
Proof.
  unfold kept_rows.
  assert (∀ l : list nat, (length (List.filter (row_complete df) l) ≤ length l)%nat) as H.
  { induction l as [|x l IH]; simpl; [done|]. destruct (row_complete df x); simpl; lia. }
  etrans; [apply H|]. by rewrite length_seq.
Qed.

Lemma row_complete_cell (df : DataFrame) i c col :
  row_complete df i = true → assoc c (df_columns df) = Some col →
  ∃ x, col !! i = Some x ∧ is_na x = false.
Proof.
  unfold row_complete. intros Hrow Hcol.
  rewrite forallb_forall in Hrow.
  apply assoc_Some_in, list_elem_of_In in Hcol. specialize (Hrow _ Hcol). simpl in Hrow.
  destruct (col !! i) as [x|]; [|done]. exists x. split; [done|].
  by apply negb_true_iff.
Qed.

Lemma dropna_column (df : DataFrame) c :
  assoc c (df_columns (dropna df))
  = (λ col : list cell, omap (λ i, col !! i) (kept_rows df)) <$> assoc c (df_columns df).
Proof. unfold dropna. simpl. apply assoc_fmap_snd. Qed.

Lemma omap_lookup_total {A} (col : list A) (kept : list nat) (P : A → Prop) :
  (∀ i, i ∈ kept → ∃ x, col !! i = Some x ∧ P x) →
  length (omap (λ i, col !! i) kept) = length kept
  ∧ Forall P (omap (λ i, col !! i) kept).
Proof.
  induction kept as [|i kept IH]; intros H; csimpl; [done|].
  destruct (H i) as (x & Hx & HP); [apply list_elem_of_here|].
  rewrite Hx. csimpl. destruct IH as [IH1 IH2].
  { intros j Hj. apply H. by apply list_elem_of_further. }
  split; [by rewrite IH1|by constructor].
Qed.

Lemma limit_length {A} (n : nat) (l : list A) : n ≠ O → (length (limit_ n l) ≤ n)%nat.
Proof.
  intros Hn. unfold limit_. destruct n; [done|]. rewrite length_take. lia.
Qed.

Section Pandas_contract.
Variable to_numeric : list cell → list cell.
Hypothesis to_numeric_cells :
  ∀ col c, c ∈ to_numeric col → is_na c = true ∨ is_num c = true.

Lemma to_numeric_kept (df : DataFrame) raw c i :
  assoc c (df_columns df) = Some (to_numeric raw) →
  i ∈ kept_rows df →
  ∃ x, to_numeric raw !! i = Some x ∧ is_num x = true.
Proof.
  intros Hcol [_ Hrow]%kept_rows_elem.
  destruct (row_complete_cell _ _ _ _ Hrow Hcol) as (x & Hx & Hna).
  exists x. split; [done|].
  destruct (to_numeric_cells raw x) as [?|?]; [|congruence|done].
  by eapply list_elem_of_lookup_2.
Qed.


(** The precondition is needed: a non-empty sample none of whose documents
    has a mileage field has no such column, and reading it raises. *)
Lemma fetch_price_mileage_no_column (cars : list doc) (q : gmap string cond) :
  let sample := price_mileage_cursor cars q 2000 in
  Exists (λ d : doc, is_Some (d !! "price")) sample →
  ¬ Exists (λ d : doc, is_Some (d !! "mileage")) sample →
  fetch_price_mileage to_numeric cars q 2000 = Raise KeyError.
Proof.
  intros sample Hp Hm.
  unfold fetch_price_mileage. fold sample.
  set (df0 := DataFrame_of sample).
  pose proof (DataFrame_of_column _ _ Hp) as Hp0. fold df0 in Hp0.
  assert (df_empty df0 = false) as ->.
  { unfold df_empty. apply orb_false_iff. split; apply bool_decide_false.
    - unfold df0. simpl. apply Exists_exists in Hp as (d & Hd & _).
      destruct sample; [by apply not_elem_of_nil in Hd|done].
    - intros E. by rewrite E in Hp0. }
  rewrite (df_get_column _ _ _ Hp0). simpl.
  unfold df_get. rewrite df_set_column by by eexists. rewrite decide_False by done.
  fold sample in Hm. unfold df0. by rewrite (DataFrame_of_no_column _ _ Hm).
Qed.
End Pandas_contract.

(** ** Strings *)

Lemma all_chars_app p s t : all_chars p (s +:+ t) = all_chars p s && all_chars p t.
Proof. induction s as [|c s IH]; simpl; [done|]. by rewrite IH, andb_assoc. Qed.

Lemma all_chars_impl (p p' : ascii → bool) s :
  (∀ c, p c = true → p' c = true) → all_chars p s = true → all_chars p' s = true.
Proof.
  intros Hp. induction s as [|c s IH]; simpl; [done|].
  intros [Hc Hs]%andb_true_iff. apply andb_true_iff. auto.
Qed.

Lemma py_split_head_app k rest :
  all_chars not_bar k = true →
  hd "" (py_split "|"%char (k +:+ String "|"%char rest)) = k.
Proof.
  induction k as [|c k IH]; simpl; [done|].
  intros [Hc Hk]%andb_true_iff. unfold not_bar in Hc. apply negb_true_iff in Hc.
  rewrite Hc. specialize (IH Hk).
  destruct (py_split "|" (k +:+ String "|"%char rest)) as [|h t]; simpl in *; by subst.
Qed.

Lemma rstrip_spaces w : all_chars is_space w = true → rstrip w = "".
Proof.
  induction w as [|c w IH]; simpl; [done|].
  intros [Hc Hw]%andb_true_iff. by rewrite (IH Hw), Hc.
Qed.

Lemma rstrip_app_spaces s w : all_chars is_space w = true → rstrip (s +:+ w) = rstrip s.
Proof.
  intros Hw. induction s as [|c s IH]; simpl; [by apply rstrip_spaces|]. by rewrite IH.
Qed.

Lemma lstrip_app_spaces s w :
  all_chars is_space w = true →
  lstrip (s +:+ w) = lstrip s +:+ (if all_chars is_space s then "" else w).
Proof.
  intros Hw. induction s as [|c s IH]; simpl.
  - induction w as [|c w IHw]; simpl; [done|].
    simpl in Hw. apply andb_true_iff in Hw as [Hc Hw']. rewrite Hc. by apply IHw.
  - destruct (is_space c); simpl; [apply IH|done].
Qed.

Lemma strip_app_spaces s w : all_chars is_space w = true → strip (s +:+ w) = strip s.
Proof.
  intros Hw. unfold strip. rewrite (lstrip_app_spaces _ _ Hw).
  destruct (all_chars is_space s).
  - by rewrite rstrip_app_spaces.
  - by apply rstrip_app_spaces.
Qed.

Lemma py_int_app_spaces s w : all_chars is_space w = true → py_int (s +:+ w) = py_int s.
Proof. intros Hw. unfold py_int. by rewrite strip_app_spaces. Qed.

Lemma rstrip_no_space s : all_chars (λ c, negb (is_space c)) s = true → rstrip s = s.
Proof.
  induction s as [|c s IH]; simpl; [done|].
  intros [Hc Hs]%andb_true_iff. rewrite (IH Hs). apply negb_true_iff in Hc.
  destruct s; [by rewrite Hc|done].
Qed.

Lemma lstrip_no_space s : all_chars (λ c, negb (is_space c)) s = true → lstrip s = s.
Proof.
  destruct s as [|c s]; simpl; [done|].
  intros [Hc _]%andb_true_iff. apply negb_true_iff in Hc. by rewrite Hc.
Qed.

Lemma strip_no_space s : all_chars (λ c, negb (is_space c)) s = true → strip s = s.
Proof. intros H. unfold strip. by rewrite lstrip_no_space, rstrip_no_space. Qed.

Lemma label_not_All k rest : String.eqb (k +:+ String " "%char rest) "All" = false.
Proof.
  apply String.eqb_neq. intros H.
  assert (all_chars (λ c, negb (Ascii.eqb c " "%char)) (k +:+ String " "%char rest) = true) as Hc
    by by rewrite H.
  rewrite all_chars_app in Hc. simpl in Hc. by rewrite andb_false_r in Hc.
Qed.

Lemma append_assoc (s t u : string) : (s +:+ t) +:+ u = s +:+ (t +:+ u).
Proof.
  induction s as [|c s IH]; [done|].
  change (String c ((s +:+ t) +:+ u) = String c (s +:+ (t +:+ u))). by rewrite IH.
Qed.

Lemma dealer_label_shape k v :
  dealer_label k v = (k +:+ " ") +:+ String "|"%char (String " "%char (py_str v)).
Proof. unfold dealer_label. by rewrite !append_assoc. Qed.

(** Whatever the name, the entry of a dealer whose key has no bar parses as
    the key does. *)
Lemma parse_dealer_label_key k v :
  all_chars not_bar k = true →
  parse_dealer (dealer_label k v) = Some <$> py_int k.
Proof.
  intros Hk. unfold parse_dealer.
  assert (String.eqb (dealer_label k v) "All" = false) as ->.
  { unfold dealer_label. apply (label_not_All k ("| " +:+ py_str v)). }
  rewrite dealer_label_shape, py_split_head_app.
  - by rewrite py_int_app_spaces.
  - by rewrite all_chars_app, Hk.
Qed.

Lemma digit_of_pretty_N_char d :
  (d < 10)%N → digit_of (pretty_N_char d) = Some (Z.of_N d).
Proof.
  intros Hd.
  assert (d = 0 ∨ d = 1 ∨ d = 2 ∨ d = 3 ∨ d = 4 ∨ d = 5 ∨ d = 6 ∨ d = 7 ∨ d = 8 ∨ d = 9)%N
    as Hcases by lia.
  repeat (destruct Hcases as [->|Hcases]; [reflexivity|]). by subst.
Qed.

Lemma is_digit_props c :
  is_digit c = true → negb (is_space c) = true ∧ not_bar c = true.
Proof.
  destruct c as [[] [] [] [] [] [] [] []]; vm_compute; intros H; try discriminate H;
    by split.
Qed.

Lemma py_int_unfold s :
  py_int s = read_digits (sign_of (strip s)).1 (sign_of (strip s)).2.
Proof. unfold py_int, sign_of, read_digits. by destruct (strip s) as [|[[] [] [] [] [] [] [] []] r]. Qed.

Lemma sign_of_digit c r : is_digit c = true → sign_of (String c r) = (false, String c r).
Proof.
  destruct c as [[] [] [] [] [] [] [] []]; vm_compute; intros H; try discriminate H; done.
Qed.

Lemma read_digits_ok neg t n :
  all_chars is_digit t = true → digits_acc false 0 t = Some n →
  read_digits neg t = Ok (if neg then - n else n).
Proof.
  intros Hd Hn. unfold read_digits. rewrite Hn.
  destruct t as [|c r]; [done|]. clear Hn.
  simpl in Hd. apply andb_true_iff in Hd as [Hc _].
  unfold is_digit in Hc. by destruct (digit_of c).
Qed.

Lemma digits_acc_digit prev acc c r d :
  digit_of c = Some d → digits_acc prev acc (String c r) = digits_acc true (10 * acc + d) r.
Proof. intros H. simpl. by rewrite H. Qed.

Lemma pretty_N_go_digits x s :
  all_chars is_digit s = true → all_chars is_digit (pretty_N_go x s) = true.
Proof.
  revert s. induction (N.lt_wf_0 x) as [x _ IH]; intros s Hs.
  assert (x = 0 ∨ 0 < x)%N as [->|Hx] by lia; [by rewrite pretty_N_go_0|].
  rewrite pretty_N_go_step by done. apply IH; [by apply N.div_lt|].
  simpl. rewrite Hs, andb_true_r. unfold is_digit.
  rewrite digit_of_pretty_N_char; [done|]. by apply N.mod_lt.
Qed.

Lemma pretty_N_go_parse x s prev :
  (0 < x)%N →
  digits_acc prev 0 (pretty_N_go x s) = digits_acc true (Z.of_N x) s.
Proof.
  revert s prev. induction (N.lt_wf_0 x) as [x _ IH]; intros s prev Hx.
  rewrite pretty_N_go_step by done.
  assert (x `mod` 10 < 10)%N as Hmod by by apply N.mod_lt.
  destruct (N.eq_0_gt_0_cases (x `div` 10)) as [Hdiv|Hdiv].
  - rewrite Hdiv, pretty_N_go_0.
    rewrite (digits_acc_digit _ _ _ _ _ (digit_of_pretty_N_char _ Hmod)).
    f_equal. pose proof (N.div_mod x 10 ltac:(done)). lia.
  - rewrite IH; [|by apply N.div_lt|done].
    rewrite (digits_acc_digit _ _ _ _ _ (digit_of_pretty_N_char _ Hmod)).
    f_equal. pose proof (N.div_mod x 10 ltac:(done)). lia.
Qed.

Lemma pretty_N_go_head x :
  (0 < x)%N → ∃ c r, pretty_N_go x "" = String c r ∧ is_digit c = true.
Proof.
  intros Hx. pose proof (pretty_N_go_digits x "" eq_refl) as Hd.
  pose proof (pretty_N_go_parse x "" false Hx) as Hp.
  destruct (pretty_N_go x "") as [|c r]; [done|].
  exists c, r. split; [done|]. simpl in Hd. by apply andb_true_iff in Hd as [? _].
Qed.

Lemma py_int_digits t n :
  all_chars is_digit t = true → digits_acc false 0 t = Some n →
  py_int t = Ok n ∧ py_int (String "-"%char t) = Ok (- n).
Proof.
  intros Hd Hn.
  assert (all_chars (λ c, negb (is_space c)) t = true) as Hns.
  { eapply all_chars_impl; [|exact Hd]. intros c Hc. by apply is_digit_props. }
  split.
  - rewrite py_int_unfold, (strip_no_space _ Hns).
    assert (sign_of t = (false, t)) as ->.
    { destruct t as [|c r]; [done|]. apply sign_of_digit.
      simpl in Hd. by apply andb_true_iff in Hd as [? _]. }
    by apply (read_digits_ok false).
  - rewrite py_int_unfold, strip_no_space; [|by simpl; rewrite Hns].
    simpl. by apply (read_digits_ok true).
Qed.

(** [int(str(n)) = n] *)
Lemma py_int_pretty (n : Z) : py_int (pretty n) = Ok n.
Proof.
  destruct n as [|p|p]; [reflexivity| |].
  - unfold pretty, pretty_Z, pretty, pretty_positive, pretty, pretty_N.
    rewrite decide_False by done.
    apply py_int_digits; [by apply pretty_N_go_digits|].
    by rewrite pretty_N_go_parse.
  - unfold pretty, pretty_Z, pretty, pretty_positive, pretty, pretty_N.
    rewrite decide_False by done.
    apply (py_int_digits _ (Z.pos p)); [by apply pretty_N_go_digits|].
    by rewrite pretty_N_go_parse.
Qed.

Lemma pretty_Z_no_bar (n : Z) : all_chars not_bar (pretty n) = true.
Proof.
  assert (∀ p, all_chars not_bar (pretty (N.pos p)) = true) as Hpos.
  { intros p. unfold pretty, pretty_N. rewrite decide_False by done.
    eapply all_chars_impl; [|by apply (pretty_N_go_digits _ "")].
    intros c Hc. by apply is_digit_props. }
  destruct n as [|p|p]; [done|apply Hpos|].
  unfold pretty, pretty_Z. change ("-" +:+ pretty p) with (String "-"%char (pretty (N.pos p))).
  simpl. by rewrite Hpos.
Qed.

(** X1.  Round trip of the dealer entry.  The sidebar entry built for a dealer
    whose [DealerID] is the integer [n] parses back to [n], whatever the
    dealer's name; for [n ≠ 0] the compiled predicate then filters on that
    dealer. *)
Theorem parse_dealer_round_trip (n : Z) (name : scalar) (ui : sidebar) :
  parse_dealer (dealer_label (py_str (SInt n)) name) = Ok (Some n)
  ∧ (n ≠ 0 → build_match ui (Some n) !! "dealer_id" = Some (CEq (SInt n))).
Proof.
  split.
  - rewrite parse_dealer_label_key by apply pretty_Z_no_bar.
    simpl py_str. by rewrite py_int_pretty.
  - intros Hn. rewrite build_match_dealer_id.
    by apply Z.eqb_neq in Hn as ->.
Qed.

(** ** Picking a car *)

Lemma car_id_of_key_int (n : Z) : car_id_of_key (py_str (SInt n)) = SInt n.
Proof. unfold car_id_of_key. simpl py_str. by rewrite py_int_pretty. Qed.

(** X2.  A vehicle whose [_id] is a 64-bit integer, or an ASCII string that
    [int()] does not read, is found again from its key in the car picker:
    the key [str(_id)] is converted back to that very [_id]. *)
Theorem picked_car_is_found (cars : list doc) (d : doc) (id : scalar) :
  ids_well_formed cars →
  d ∈ cars →
  d !! "_id" = Some (One (Sc id)) →
  (∃ n, id = SInt n ∧ - 2 ^ 63 ≤ n < 2 ^ 63)
  ∨ (∃ s e, id = SStr s ∧ all_chars is_ascii s = true ∧ py_int s = Raise e) →
  car_id_of_key (py_str id) = id
  ∧ get_car_detail cars (car_id_of_key (py_str id)) = Some d.
Proof.
  intros Hwf Hin Hid Hcase.
  assert (car_id_of_key (py_str id) = id) as Hkey.
  { destruct Hcase as [(n & -> & _)|(s & e & -> & _ & Hs)]; [apply car_id_of_key_int|].
    unfold car_id_of_key. simpl. by rewrite Hs. }
  split; [done|]. rewrite Hkey. by apply get_car_detail_found.
Qed.

(** X3.  A vehicle whose [_id] is an ASCII string of at most 640 characters
    that reads as a 64-bit integer [n] is not found from its own key: the key
    is turned into the integer [n], so the lookup returns the vehicle whose
    [_id] is the integer [n] if there is one, and nothing otherwise. *)
Theorem numeric_string_id_not_found (db : database) (q : gmap string cond)
    (d : doc) (s : string) (n : Z) :
  ids_well_formed (cars_coll db) →
  d ∈ cars_coll db →
  d !! "_id" = Some (One (Sc (SStr s))) →
  all_chars is_ascii s = true →
  (String.length s ≤ 640)%nat →
  py_int s = Ok n →
  - 2 ^ 63 ≤ n < 2 ^ 63 →
  get_car_detail (cars_coll db) (car_id_of_key (py_str (SStr s))) ≠ Some d
  ∧ (∀ d', d' ∈ cars_coll db → d' !! "_id" = Some (One (Sc (SInt n))) →
           get_car_detail (cars_coll db) (car_id_of_key (py_str (SStr s))) = Some d')
  ∧ ((∀ d', d' ∈ cars_coll db → d' !! "_id" ≠ Some (One (Sc (SInt n)))) →
     get_car_detail (cars_coll db) (car_id_of_key (py_str (SStr s))) = None
     ∧ ∀ c cs, fetch_cars_list (cars_coll db) q 500 = Ok (c :: cs) →
               history_viewer db q (py_str (SStr s)) = Ok NoDetail).
Proof.
  intros Hwf Hin Hid _ _ Hs _.
  assert (car_id_of_key (py_str (SStr s)) = SInt n) as Hkey.
  { unfold car_id_of_key. simpl. by rewrite Hs. }
  rewrite Hkey. split_and!.
  - intros Hget. unfold get_car_detail, find_one, find in Hget.
    destruct (filter _ (cars_coll db)) as [|d0 ds] eqn:E; [done|].
    simpl in Hget. injection Hget as ->.
    assert (d ∈ d :: ds) as Hd by apply list_elem_of_here.
    rewrite <- E in Hd. apply list_elem_of_filter in Hd as [Hm _].
    rewrite (id_query_matches _ _ _ Hid) in Hm. by apply bool_decide_unpack in Hm.
  - intros d' Hin' Hid'. by apply get_car_detail_found.
  - intros Hno.
    assert (get_car_detail (cars_coll db) (SInt n) = None) as Hnone
      by by apply get_car_detail_not_found.
    split; [done|]. intros c cs Hlist. unfold history_viewer.
    rewrite Hlist. simpl. simpl in Hkey. by rewrite Hkey, Hnone.
Qed.

(** ** The cutoff on ordinary days *)

Lemma days_in_month_minus_5 y m d :
  1 ≤ m ≤ 12 → 1 ≤ d ≤ days_in_month y m → ¬ (m = 2 ∧ d = 29) →
  d ≤ days_in_month (y - 5) m.
Proof.
  unfold days_in_month. intros Hm Hd Hleap.
  destruct (m =? 2) eqn:E2.
  - apply Z.eqb_eq in E2. destruct (is_leap y), (is_leap (y - 5)); lia.
  - lia.
Qed.

(** X4.  On every calendar day other than February 29, from year 6 on, the
    cutoff exists, is midnight of the same month and day five years earlier,
    and the transform returns rows. *)
Theorem service_cutoff_ordinary_day (t : datetime) (cars : list doc) (q : gmap string cond) :
  datetime_new (dt_year t) (dt_month t) (dt_day t)
    = Ok (mk_datetime (dt_year t) (dt_month t) (dt_day t) 0) →
  6 ≤ dt_year t →
  ¬ (dt_month t = 2 ∧ dt_day t = 29) →
  service_cutoff (at_instant t)
    = Ok (mk_datetime (dt_year t - 5) (dt_month t) (dt_day t) 0)
  ∧ ∃ rows, service_frequency_pipeline (at_instant t) cars q = Ok rows.
Proof.
  intros Hvalid Hy Hleap.
  assert (service_cutoff (at_instant t)
          = Ok (mk_datetime (dt_year t - 5) (dt_month t) (dt_day t) 0)) as Hc.
  { unfold service_cutoff, datetime_new in *. simpl.
    destruct (_ && _) eqn:E in Hvalid; [|done].
    repeat (apply andb_true_iff in E as [E ?]).
    rewrite ?Z.leb_le in *.
    pose proof (days_in_month_minus_5 (dt_year t) (dt_month t) (dt_day t)
                  ltac:(lia) ltac:(lia) Hleap).
    replace (_ && _) with true; [done|]. symmetry.
    repeat (apply andb_true_iff; split); apply Z.leb_le; lia. }
  split; [done|]. unfold service_frequency_pipeline. rewrite Hc. simpl.
  unfold recent_services. rewrite recent_years. simpl. by eexists.
Qed.

(** ** Distribution rows *)

(** X5.  The manufacturer distribution has one row per manufacturer of a
    matching vehicle, holding the number of matching vehicles of that
    manufacturer, in descending order of count. *)
Theorem manufacturer_distribution_rows (cars : list doc) (q : gmap string cond) :
  let rows := manufacturer_distribution_pipeline cars q in
  (∀ M, assoc M rows
        = match filter (λ d, expr ["manufacturer"] d = M) (find q cars) with
          | [] => None
          | g => Some (length g)
          end)
  ∧ NoDup rows.*1
  ∧ StronglySorted count_desc rows.
Proof.
  intros rows. subst rows. unfold manufacturer_distribution_pipeline.
  rewrite optional_match_find. split_and!.
  - intros M. apply count_rows_assoc.
  - rewrite merge_sort_Permutation. apply stage_group_NoDup.
  - apply StronglySorted_merge_sort; apply _.
Qed.

(** X6.  The fuel-type distribution has one row per fuel type of a matching
    vehicle, holding the number of matching vehicles of that fuel type, in
    descending order of count. *)
Theorem fuel_distribution_rows (cars : list doc) (q : gmap string cond) :
  let rows := fuel_distribution_pipeline cars q in
  (∀ F, assoc F rows
        = match filter (λ d, expr ["fuel_type"] d = F) (find q cars) with
          | [] => None
          | g => Some (length g)
          end)
  ∧ NoDup rows.*1
  ∧ StronglySorted count_desc rows.
Proof.
  intros rows. subst rows. unfold fuel_distribution_pipeline.
  rewrite optional_match_find. split_and!.
  - intros F. apply count_rows_assoc.
  - rewrite merge_sort_Permutation. apply stage_group_NoDup.
  - apply StronglySorted_merge_sort; apply _.
Qed.

Lemma stage_group_nil_iff {A K S} `{EqDecision K} (key : A → K) (init : S)
    (step : A → S → S) (docs : list A) :
  stage_group key init step docs = [] ↔ docs = [].
Proof.
  split; [|by intros ->].
  intros E. destruct docs as [|d docs]; [done|]. exfalso.
  pose proof (stage_group_assoc key init step (d :: docs) (key d)) as H.
  rewrite E in H. simpl in H. rewrite filter_cons_True in H by done. done.
Qed.

Lemma merge_sort_nil_iff {A} (R : relation A) `{∀ x y, Decision (R x y)} (l : list A) :
  merge_sort R l = [] ↔ l = [].
Proof.
  split; [|by intros ->]. intros E.
  apply Permutation_nil_r. rewrite <- E. by rewrite merge_sort_Permutation.
Qed.

Lemma fmap_nil_iff {A B} (f : A → B) (l : list A) : f <$> l = [] ↔ l = [].
Proof. split; [apply fmap_nil_inv|by intros ->]. Qed.

Lemma panel_of_info {A} msg (data : list A) : panel_of msg data = Info msg ↔ data = [].
Proof. by destruct data. Qed.

(** X7.  The three per-vehicle charts show the "No data available." notice
    exactly when no vehicle matches the predicate. *)
Theorem no_data_panels (cars : list doc) (q : gmap string cond) :
  (panel_of "No data available." (manufacturer_distribution_pipeline cars q)
     = Info "No data available." ↔ find q cars = [])
  ∧ (panel_of "No data available." (avg_price_by_manufacturer_pipeline cars q)
     = Info "No data available." ↔ find q cars = [])
  ∧ (panel_of "No data available." (fuel_distribution_pipeline cars q)
     = Info "No data available." ↔ find q cars = []).
Proof.
  rewrite !panel_of_info.
  unfold manufacturer_distribution_pipeline, avg_price_by_manufacturer_pipeline,
    fuel_distribution_pipeline.
  rewrite !merge_sort_nil_iff, fmap_nil_iff, !stage_group_nil_iff, optional_match_find.
  done.
Qed.

Lemma stage_unwind_nil_iff f (docs : list doc) :
  stage_unwind f docs = [] ↔ Forall (λ d, embedded f d = []) docs.
Proof.
  unfold stage_unwind. induction docs as [|d docs IH]; [by split; [constructor|]|].
  rewrite bind_cons, Forall_cons, <- IH.
  assert (unwind_doc f d = [] ↔ embedded f d = []) as <-.
  { rewrite <- !length_zero_iff_nil. by rewrite unwind_doc_length. }
  split.
  - by intros [? ?]%app_eq_nil.
  - by intros [-> ->].
Qed.

(** X8.  The accident chart shows "No accident data." exactly when no matching
    vehicle has an embedded accident. *)
Theorem no_accident_data_panel (cars : list doc) (q : gmap string cond) :
  panel_of "No accident data." (accident_severity_pipeline cars q) = Info "No accident data."
  ↔ Forall (λ d, embedded "accidents" d = []) (find q cars).
Proof.
  rewrite panel_of_info. unfold accident_severity_pipeline.
  by rewrite merge_sort_nil_iff, stage_group_nil_iff, stage_unwind_nil_iff, optional_match_find.
Qed.

(** ** Years of the service chart *)

Lemma stage_group_keys {A K S} `{EqDecision K} (key : A → K) (init : S)
    (step : A → S → S) (docs : list A) k :
  k ∈ (stage_group key init step docs).*1 → ∃ d, d ∈ docs ∧ key d = k.
Proof.
  intros (p & -> & Hp)%list_elem_of_fmap. destruct p as [k s]. simpl.
  pose proof (stage_group_NoDup key init step docs) as Hnd.
  apply (assoc_Some_elem _ _ _ Hnd) in Hp. rewrite stage_group_assoc in Hp.
  destruct (filter (λ d, key d = k) docs) as [|d g] eqn:E; [done|].
  assert (d ∈ d :: g) as Hd by apply list_elem_of_here.
  rewrite <- E in Hd. apply list_elem_of_filter in Hd as [? ?]. by exists d.
Qed.

Lemma years_as_int_some (rows all : list (option Z * nat)) :
  Forall (λ r, is_Some r.1) rows →
  ∃ ys, rmapM (λ r : option Z * nat,
                 match r.1 with
                 | Some y => Ok (y, r.2)
                 | None => Raise (if forallb (λ r' : option Z * nat, bool_decide (r'.1 = None)) all
                                  then TypeError else ValueError)
                 end) rows = Ok ys
        ∧ rows = (λ r : Z * nat, (Some r.1, r.2)) <$> ys.
Proof.
  induction 1 as [|[[y|] c] rows [y' Hy] _ (ys & IH1 & IH2)]; simpl.
  - by exists [].
  - rewrite IH1. simpl. exists ((y, c) :: ys). split; [done|]. csimpl. by rewrite <- IH2.
  - done.
Qed.

Lemma service_rows_dated (nows : clock) (cutoff : datetime)
    (cars : list doc) (q : gmap string cond) :
  service_cutoff nows = Ok cutoff →
  ∃ rows, service_frequency_pipeline nows cars q = Ok rows
          ∧ Forall (λ r : option Z * nat, is_Some r.1) rows.
Proof.
  intros Hc. unfold service_frequency_pipeline. rewrite Hc. simpl.
  unfold recent_services. rewrite recent_years. simpl.
  eexists. split; [reflexivity|].
  apply Forall_forall. intros [k c] Hin. simpl.
  assert (k ∈ (merge_sort year_asc
                 (stage_group id O sum_one
                    ((λ t, Some (dt_year t))
                       <$> filter (λ t, datetime_leb cutoff t)
                             (optional_match q cars ≫= service_dates)))).*1) as Hk.
  { apply list_elem_of_fmap. by exists (k, c). }
  rewrite merge_sort_Permutation in Hk.
  apply stage_group_keys in Hk as (k' & Hk' & <-).
  apply list_elem_of_fmap in Hk' as (t & -> & _). by eexists.
Qed.

(** X9.  Whenever the cutoff exists, every row of the service transform
    carries a year, so the conversion of the year column to integers that
    precedes the chart does not fail and gives back the same years. *)
Theorem service_years_are_integers (nows : clock) (cutoff : datetime)
    (cars : list doc) (q : gmap string cond) :
  service_cutoff nows = Ok cutoff →
  ∃ rows ys,
    service_frequency_pipeline nows cars q = Ok rows
    ∧ years_as_int rows = Ok ys
    ∧ rows = (λ r : Z * nat, (Some r.1, r.2)) <$> ys.
Proof.
  intros Hc. destruct (service_rows_dated nows cutoff cars q Hc) as (rows & Hrun & Hall).
  destruct (years_as_int_some rows rows Hall) as (ys & Hys & Heq).
  by exists rows, ys.
Qed.

(** ** The car list *)

Lemma project_lookup (keep : list string) (d : doc) f :
  f ∈ keep → project keep d !! f = d !! f.
Proof.
  intros Hf. unfold project. apply option_eq. intros v.
  rewrite map_lookup_filter_Some. simpl. split; [by intros [? _]|by intros ?].
Qed.

Lemma car_option_of_project (d : doc) :
  car_option_of (project ["_id"; "manufacturer"; "model"; "price"] d)
  = match d !! "_id", d !! "manufacturer", d !! "model", d !! "price" with
    | Some i, Some m, Some mo, Some p => Ok (mk_car_option i (m, mo, p))
    | _, _, _, _ => Raise KeyError
    end.
Proof.
  unfold car_option_of, getitem. rewrite !project_lookup by set_solver.
  by destruct (d !! "_id"), (d !! "manufacturer"), (d !! "model"), (d !! "price").
Qed.

Lemma rmapM_raise {A B} (f : A → result B) (l : list A) e :
  (∀ x e', f x = Raise e' → e' = e) →
  ¬ Forall (λ x, ∃ y, f x = Ok y) l → rmapM f l = Raise e.
Proof.
  intros He. induction l as [|x l IH]; intros Hl; simpl.
  - destruct Hl. constructor.
  - destruct (f x) as [y|e'] eqn:Ex; simpl.
    + rewrite IH; [done|]. intros H. apply Hl. constructor; [by exists y|done].
    + by rewrite (He _ _ Ex).
Qed.

Lemma rmapM_ok {A B} (f : A → result B) (g : A → B) (l : list A) :
  Forall (λ x, f x = Ok (g x)) l → rmapM f l = Ok (g <$> l).
Proof.
  induction 1 as [|x l Hx _ IH]; simpl; [done|]. by rewrite Hx, IH.
Qed.

Lemma find_query_copy (q : gmap string cond) (cars : list doc) :
  find (if bool_decide (q = ∅) then ∅ else q) cars = find q cars.
Proof. by case_bool_decide; subst. Qed.

Lemma cars_list_ok (l : list doc) :
  Forall listable l →
  ∃ opts, rmapM car_option_of (project ["_id"; "manufacturer"; "model"; "price"] <$> l)
          = Ok opts
          ∧ Forall2 listed_as opts l.
Proof.
  induction 1 as [|d l ([i Hi] & [m Hm] & [mo Hmo] & [p Hp]) _ (opts & IH1 & IH2)]; csimpl.
  - by exists [].
  - rewrite car_option_of_project, Hi, Hm, Hmo, Hp. simpl. rewrite IH1. simpl.
    eexists. split; [done|]. constructor; [|done]. by repeat split.
Qed.

(** X10.  The car list holds at most 500 entries, one for each of the first 500
    matching vehicles in order, with that vehicle's [_id], manufacturer, model
    and price; it raises [KeyError] exactly when one of those vehicles lacks
    one of the four fields. *)
Theorem fetch_cars_list_spec (cars : list doc) (q : gmap string cond) :
  let listed := take 500 (find q cars) in
  (Forall listable listed →
   ∃ l, fetch_cars_list cars q 500 = Ok l
        ∧ (length l ≤ 500)%nat
        ∧ Forall2 listed_as l listed)
  ∧ (¬ Forall listable listed → fetch_cars_list cars q 500 = Raise KeyError).
Proof.
  intros listed. unfold fetch_cars_list. rewrite find_query_copy.
  change (limit_ 500 ?l) with (take 500 l). rewrite <- fmap_take. fold listed.
  change (rmapM _ ?l) with (rmapM car_option_of l).
  split.
  - intros Hl. destruct (cars_list_ok _ Hl) as (opts & Hrun & Hrel).
    exists opts. split_and!; [done| |done].
    rewrite (Forall2_length _ _ _ Hrel). unfold listed. rewrite length_take. lia.
  - intros Hl. apply rmapM_raise.
    + intros d e. unfold car_option_of, getitem.
      destruct (d !! "_id"), (d !! "manufacturer"), (d !! "model"), (d !! "price");
        simpl; congruence.
    + intros H. apply Hl. apply Forall_forall. intros d Hd.
      rewrite Forall_forall in H.
      destruct (H (project ["_id"; "manufacturer"; "model"; "price"] d)) as [y Hy].
      { apply list_elem_of_fmap. by exists d. }
      rewrite car_option_of_project in Hy. unfold listable.
      by destruct (d !! "_id"), (d !! "manufacturer"), (d !! "model"), (d !! "price").
Qed.

(** ** The dealers map *)

Lemma dealers_map_add_entry m (d : dealer) :
  dealers_map_add (Ok m) d
  = match dealer_entry d with
    | Some e => Ok (<[e.1 := e.2]> m)
    | None => Raise KeyError
    end.
Proof.
  rewrite dealers_map_add_ok. unfold dealer_entry.
  by destruct (d !! "DealerID"), (d !! "DealerName").
Qed.

Lemma dealers_map_fold (docs : list dealer) m0 m key :
  foldl dealers_map_add (Ok m0) docs = Ok m →
  m !! key = match last (names_for key docs) with
             | Some v => Some v
             | None => m0 !! key
             end.
Proof.
  revert m0. induction docs as [|d docs IH]; intros m0 Hm.
  - by injection Hm as <-.
  - change (foldl dealers_map_add (Ok m0) (d :: docs))
      with (foldl dealers_map_add (dealers_map_add (Ok m0) d) docs) in Hm.
    rewrite dealers_map_add_entry in Hm. unfold names_for. csimpl.
    destruct (dealer_entry d) as [[k v]|]; [|by rewrite dealers_map_of_raise in Hm].
    rewrite (IH _ Hm). fold (names_for key docs). simpl.
    destruct (decide (k = key)) as [->|Hne]; simpl.
    + rewrite last_cons. destruct (last (names_for key docs)); [done|].
      by rewrite lookup_insert_eq.
    + destruct (last (names_for key docs)); [done|]. by rewrite lookup_insert_ne.
Qed.

(** X11.  When the dealers map is built, every dealer record had both fields,
    and the map sends a key to the name of the last dealer record whose
    identifier prints as that key (later records replace earlier ones). *)
Theorem dealers_map_lookup (dealer_docs : list dealer) (m : gmap string scalar) :
  dealers_map_of dealer_docs = Ok m →
  Forall (λ d : dealer, is_Some (d !! "DealerID") ∧ is_Some (d !! "DealerName")) dealer_docs
  ∧ ∀ key, m !! key = last (names_for key dealer_docs).
Proof.
  intros Hm. split.
  - destruct (dealers_map_of_result dealer_docs) as [_ Hraise].
    destruct (decide (Forall (λ d : dealer, is_Some (d !! "DealerID")
                                           ∧ is_Some (d !! "DealerName")) dealer_docs))
      as [?|Hn]; [done|].
    rewrite (Hraise Hn) in Hm. done.
  - intros key. rewrite (dealers_map_fold _ _ _ key Hm).
    destruct (last _); [done|apply lookup_empty].
Qed.

(** ** Start-up on a populated collection *)

Section Sorted_lookup.
Variable bson_leb : option value → option value → bool.
Hypothesis bson_leb_total : ∀ a b, bson_leb a b = true ∨ bson_leb b a = true.
Hypothesis bson_leb_trans :
  ∀ a b c, bson_leb a b = true → bson_leb b c = true → bson_leb a c = true.

Lemma first_by_least (le : doc → doc → bool) (d : doc) (r : list doc) :
  (∀ a b, le a b = true ∨ le b a = true) →
  (∀ a b c, le a b = true → le b c = true → le a c = true) →
  let b := foldl (λ best x : doc, if le best x then best else x) d r in
  b ∈ d :: r ∧ ∀ x, x ∈ d :: r → le b x = true.
Proof.
  intros Htot Htrans. revert d. induction r as [|x r IH]; intros d; simpl.
  - split; [apply list_elem_of_here|].
    intros y ->%list_elem_of_singleton. by destruct (Htot d d).
  - destruct (IH (if le d x then d else x)) as [Hin Hle].
    set (b := foldl _ _ r) in *.
    assert (le b (if le d x then d else x) = true) as Hb by apply Hle, list_elem_of_here.
    split.
    + apply elem_of_cons in Hin as [Hin|Hin].
      * rewrite Hin. destruct (le d x); [apply list_elem_of_here|].
        apply list_elem_of_further, list_elem_of_here.
      * by do 2 apply list_elem_of_further.
    + intros y [->|[->|Hy]%elem_of_cons]%elem_of_cons.
      * destruct (le d x) eqn:E; [done|].
        destruct (Htot d x) as [?|Hxd]; [congruence|]. by eapply Htrans.
      * destruct (le d x) eqn:E; [by eapply Htrans|done].
      * apply Hle. by apply list_elem_of_further.
Qed.

Lemma find_one_sorted_least f (ascending : bool) (coll : list doc) :
  coll ≠ [] →
  ∃ d, find_one_sorted bson_leb f ascending coll = Some d
       ∧ d ∈ coll
       ∧ ∀ x, x ∈ coll →
              if ascending then bson_leb (d !! f) (x !! f) = true
              else bson_leb (x !! f) (d !! f) = true.
Proof.
  intros Hne. destruct coll as [|d0 r]; [done|]. unfold find_one_sorted.
  eexists. split; [reflexivity|]. destruct ascending.
  - apply (first_by_least (λ a b : doc, bson_leb (a !! f) (b !! f))); eauto.
  - apply (first_by_least (λ a b : doc, bson_leb (b !! f) (a !! f))); eauto.
Qed.

(** X12.  On a non-empty collection whose vehicles all have a price and a year
    and whose dealer records all have both fields, start-up loads the filter
    options without an exception; the price and year bounds are fields of
    vehicles of the collection and bound the price and year of every vehicle
    in the store's order. *)
Theorem load_filter_options_bounds (db : database) :
  cars_coll db ≠ [] →
  Forall (λ d : doc, is_Some (d !! "price") ∧ is_Some (d !! "year_of_manufacturing"))
    (cars_coll db) →
  Forall (λ d : dealer, is_Some (d !! "DealerID") ∧ is_Some (d !! "DealerName"))
    (dealers_coll db) →
  ∃ opts,
    load_filter_options bson_leb db = Ok opts
    ∧ manufacturers opts = distinct "manufacturer" (cars_coll db)
    ∧ fuel_types opts = distinct "fuel_type" (cars_coll db)
    ∧ (∃ d, d ∈ cars_coll db ∧ d !! "price" = Some (MIN_PRICE opts))
    ∧ (∃ d, d ∈ cars_coll db ∧ d !! "price" = Some (MAX_PRICE opts))
    ∧ (∃ d, d ∈ cars_coll db ∧ d !! "year_of_manufacturing" = Some (MIN_YEAR opts))
    ∧ (∃ d, d ∈ cars_coll db ∧ d !! "year_of_manufacturing" = Some (MAX_YEAR opts))
    ∧ ∀ x, x ∈ cars_coll db →
           bson_leb (Some (MIN_PRICE opts)) (x !! "price") = true
           ∧ bson_leb (x !! "price") (Some (MAX_PRICE opts)) = true
           ∧ bson_leb (Some (MIN_YEAR opts)) (x !! "year_of_manufacturing") = true
           ∧ bson_leb (x !! "year_of_manufacturing") (Some (MAX_YEAR opts)) = true.
Proof.
  intros Hne Hcars Hdealers. unfold load_filter_options.
  destruct (dealers_map_of_result
              ((λ d : dealer, filter (λ kv, kv.1 ∈ ["DealerID"; "DealerName"]) d)
                 <$> dealers_coll db)) as [[m Hm] _].
  { apply Forall_fmap. eapply Forall_impl; [exact Hdealers|].
    intros d [H1 H2]. simpl. rewrite !project_dealer_fields; [done|set_solver..]. }
  rewrite Hm. simpl.
  rewrite Forall_forall in Hcars.
  destruct (find_one_sorted_least "price" true _ Hne) as (d1 & -> & Hin1 & Hle1).
  destruct (find_one_sorted_least "price" false _ Hne) as (d2 & -> & Hin2 & Hle2).
  destruct (find_one_sorted_least "year_of_manufacturing" true _ Hne)
    as (d3 & -> & Hin3 & Hle3).
  destruct (find_one_sorted_least "year_of_manufacturing" false _ Hne)
    as (d4 & -> & Hin4 & Hle4).
  destruct (Hcars d1 Hin1) as [[p1 Hp1] _]. destruct (Hcars d2 Hin2) as [[p2 Hp2] _].
  destruct (Hcars d3 Hin3) as [_ [y3 Hy3]]. destruct (Hcars d4 Hin4) as [_ [y4 Hy4]].
  unfold subscript, getitem. rewrite Hp1, Hp2, Hy3, Hy4. simpl.
  eexists. split; [reflexivity|]. simpl. split_and!; eauto.
  intros x Hx. rewrite <- Hp1, <- Hp2, <- Hy3, <- Hy4. split_and!; auto.
Qed.
End Sorted_lookup.

(** ** The run of the script *)

Lemma service_pipeline_leap_day (nows : clock) (cars : list doc) (q : gmap string cond) :
  is_leap (dt_year (now_1 nows)) = true →
  dt_month (now_2 nows) = 2 →
  dt_day (now_3 nows) = 29 →
  service_frequency_pipeline nows cars q = Raise ValueError.
Proof.
  intros Hleap Hm Hd. unfold service_frequency_pipeline, service_cutoff, datetime_new.
  unfold days_in_month. rewrite Hm, Hd, (leap_minus_5 _ Hleap). simpl.
  by rewrite !andb_false_r.
Qed.

(** X13.  On February 29 of a leap year no run of the script that evaluates
    its functions renders the page: it raises, or it reruns because the
    button was pressed. *)
Theorem no_page_on_leap_day
    (bson_leb : option value → option value → bool) (to_numeric : list cell → list cell)
    (db : database) (ui : sidebar) (selected_key : string) (nows : clock) :
  is_leap (dt_year (now_1 nows)) = true →
  dt_month (now_2 nows) = 2 →
  dt_day (now_3 nows) = 29 →
  (∀ p, app bson_leb to_numeric db ui selected_key nows ≠ Ok (Rendered p))
  ∧ (apply_filters ui = false →
     ∃ e, app bson_leb to_numeric db ui selected_key nows = Raise e).
Proof.
  intros Hleap Hm Hd. unfold app.
  destruct (load_filter_options bson_leb db) as [opts|e]; simpl; [|by eauto].
  destruct (sorted_truthy (manufacturers opts)); simpl; [|by eauto].
  destruct (sorted_truthy (fuel_types opts)); simpl; [|by eauto].
  destruct (py_int_of (MIN_PRICE opts)); simpl; [|by eauto].
  destruct (py_int_of (MAX_PRICE opts)); simpl; [|by eauto].
  destruct (py_int_of (MIN_YEAR opts)); simpl; [|by eauto].
  destruct (py_int_of (MAX_YEAR opts)); simpl; [|by eauto].
  destruct (parse_dealer (sel_dealer ui)) as [o|e]; simpl; [|by eauto].
  destruct (apply_filters ui); [by split|].
  rewrite (service_pipeline_leap_day _ _ _ Hleap Hm Hd). simpl. by eauto.
Qed.

(** ** Vehicles without a dealer *)

(** X14.  A vehicle without a [dealer_id] is looked up with a null identifier,
    which the store also matches against dealer records whose [DealerID] is
    null or absent: when every dealer record has a non-null identifier the
    dealer shown is "Unknown"; otherwise it is the name of the first dealer
    record without one. *)
Theorem vehicle_without_dealer (dealers : list dealer) (car : doc) :
  car !! "dealer_id" = None →
  (Forall (λ dl : dealer, ∃ v, dl !! "DealerID" = Some v ∧ v ≠ SNull) dealers →
   ∃ s, vehicle_summary_of dealers car = Ok s ∧ shown_dealer s = SStr "Unknown")
  ∧ (∀ l1 dl l2 name,
       dealers = (l1 ++ dl :: l2)%list →
       Forall (λ dl : dealer, ∃ v, dl !! "DealerID" = Some v ∧ v ≠ SNull) l1 →
       dl !! "DealerID" = None ∨ dl !! "DealerID" = Some SNull →
       dl !! "DealerName" = Some name →
       ∃ s, vehicle_summary_of dealers car = Ok s ∧ shown_dealer s = name).
Proof.
  intros Hcar. unfold vehicle_summary_of. rewrite Hcar.
  assert (∀ dl : dealer, (∃ v, dl !! "DealerID" = Some v ∧ v ≠ SNull) →
                         dealer_matches None dl = false) as Hnomatch.
  { intros dl (v & Hv & Hnn). unfold dealer_matches, field_eq. rewrite Hv. simpl.
    apply bool_decide_false. by intros [= ->]. }
  split.
  - intros Hall.
    assert (find_one_dealer dealers None = None) as ->.
    { apply find_one_dealer_None. intros dl Hdl. apply Hnomatch.
      rewrite Forall_forall in Hall. by apply Hall. }
    simpl. by eexists.
  - intros l1 dl l2 name -> Hl1 Hdl Hname.
    assert (find_one_dealer (l1 ++ dl :: l2) None = Some dl) as ->.
    { assert (dealer_matches None dl = true) as Hm.
      { unfold dealer_matches, field_eq. by destruct Hdl as [-> | ->]. }
      unfold find_one_dealer. induction Hl1 as [|d0 l1 Hd0 _ IH]; cbn -[dealer_matches].
      - by rewrite Hm.
      - by rewrite (Hnomatch _ Hd0). }
    unfold dealer_name, getitem. rewrite bool_decide_false, Hname; [simpl; by eexists|].
    intros ->. by rewrite lookup_empty in Hname.
Qed.

(** ** What the compiled predicate selects *)

Lemma field_eq_scalar (v w : scalar) :
  field_eq v (Some (One (Sc w))) = true ↔ w = v.
Proof.
  unfold field_eq. simpl. rewrite bool_decide_eq_true. split; [by intros [= ->]|by intros ->].
Qed.

Lemma fuel_in_selection (f : string) (l : list string) :
  existsb (λ v, field_eq v (Some (vstr f))) (SStr <$> l) = true ↔ f ∈ l.
Proof.
  induction l as [|x l IH].
  - split; [done|]. by intros ?%not_elem_of_nil.
  - rewrite fmap_cons. cbn [existsb].
    rewrite orb_true_iff, IH, elem_of_cons. unfold vstr. rewrite field_eq_scalar.
    split; (intros [H|?]; [left|by right]); congruence.
Qed.

Lemma range_holds (lo hi n : Z) :
  holds (CCmp (Some (SInt lo)) (Some (SInt hi))) (Some (vint n)) = true ↔ lo ≤ n ≤ hi.
Proof. simpl. rewrite andb_true_iff, !Z.leb_le. done. Qed.

Lemma matches_lookup (q : gmap string cond) (d : doc) :
  matches q d = true
  ↔ ∀ k c, q !! k = Some c → holds c (get_path (py_split "."%char k) d) = true.
Proof. unfold matches. by rewrite bool_decide_eq_true. Qed.

Lemma build_match_keys ui o k c :
  build_match ui o !! k = Some c →
  k = "manufacturer" ∨ k = "fuel_type" ∨ k = "dealer_id" ∨ k = "price"
  ∨ k = "year_of_manufacturing".
Proof.
  destruct (decide (k = "manufacturer")) as [|H1]; [by auto|].
  destruct (decide (k = "fuel_type")) as [|H2]; [by auto|].
  destruct (decide (k = "dealer_id")) as [|H3]; [by auto|].
  destruct (decide (k = "price")) as [|H4]; [by auto|].
  destruct (decide (k = "year_of_manufacturing")) as [|H5]; [by auto|].
  intros Hk. exfalso. revert Hk. unfold build_match.
  rewrite !lookup_insert_ne by done.
  destruct o as [n|]; [destruct (truthy_id (Some n))|];
    destruct (sel_fuel ui); rewrite ?lookup_insert_ne by done;
    destruct (String.eqb (sel_manufacturer ui) "All"); simpl;
    by rewrite ?lookup_insert_ne, ?lookup_empty by done.
Qed.

(** X15.  For a vehicle whose manufacturer, fuel type, dealer, price and year are
    plain values, the compiled predicate holds exactly when the manufacturer
    is the selected one (or "All" is selected), the fuel type is among the
    selected ones (or none is selected), the dealer is the selected one (or
    none, or dealer 0, is selected), and the price and the year lie in their
    closed intervals. *)
Theorem compiled_predicate_selects (ui : sidebar) (o : option Z) (d : doc)
    (m f : string) (dl p y : Z) :
  d !! "manufacturer" = Some (vstr m) →
  d !! "fuel_type" = Some (vstr f) →
  d !! "dealer_id" = Some (vint dl) →
  d !! "price" = Some (vint p) →
  d !! "year_of_manufacturing" = Some (vint y) →
  matches (build_match ui o) d = true
  ↔ (sel_manufacturer ui = "All" ∨ m = sel_manufacturer ui)
    ∧ (sel_fuel ui = [] ∨ f ∈ sel_fuel ui)
    ∧ (o = None ∨ o = Some 0 ∨ o = Some dl)
    ∧ (price_range ui).1 ≤ p ≤ (price_range ui).2
    ∧ (year_range ui).1 ≤ y ≤ (year_range ui).2.
Proof.
  intros Hm Hf Hd Hp Hy. rewrite matches_lookup. split.
  - intros H. split; [|split; [|split; [|split]]].
    + destruct (String.eqb (sel_manufacturer ui) "All") eqn:E.
      * left. by apply String.eqb_eq.
      * right. pose proof (H "manufacturer" (CEq (SStr (sel_manufacturer ui)))) as H1.
        rewrite build_match_manufacturer, E in H1. specialize (H1 eq_refl).
        change (py_split "." "manufacturer") with ["manufacturer"] in H1. simpl in H1.
        rewrite Hm in H1. apply field_eq_scalar in H1. congruence.
    + destruct (sel_fuel ui) as [|x l] eqn:E; [by left|right].
      pose proof (H "fuel_type" (CIn (SStr <$> sel_fuel ui))) as H1.
      rewrite build_match_fuel_type, E in H1. specialize (H1 eq_refl).
      change (py_split "." "fuel_type") with ["fuel_type"] in H1. simpl get_path in H1.
      rewrite Hf in H1. by apply fuel_in_selection in H1.
    + destruct o as [n|]; [|by left]. right.
      destruct (n =? 0) eqn:E; [left; f_equal; by apply Z.eqb_eq|right].
      pose proof (H "dealer_id" (CEq (SInt n))) as H1.
      rewrite build_match_dealer_id, E in H1. specialize (H1 eq_refl).
      change (py_split "." "dealer_id") with ["dealer_id"] in H1. simpl in H1.
      rewrite Hd in H1. apply field_eq_scalar in H1. congruence.
    + pose proof (H "price" _ (build_match_price ui o)) as H1.
      change (py_split "." "price") with ["price"] in H1. simpl get_path in H1.
      rewrite Hp in H1. by apply range_holds.
    + pose proof (H "year_of_manufacturing" _ (build_match_year ui o)) as H1.
      change (py_split "." "year_of_manufacturing") with ["year_of_manufacturing"] in H1.
      simpl get_path in H1. rewrite Hy in H1. by apply range_holds.
  - intros (H1 & H2 & H3 & H4 & H5) k c Hk.
    destruct (build_match_keys _ _ _ _ Hk) as [->|[->|[->|[->| ->]]]].
    + rewrite build_match_manufacturer in Hk.
      destruct (String.eqb (sel_manufacturer ui) "All") eqn:E; [done|].
      injection Hk as <-.
      change (py_split "." "manufacturer") with ["manufacturer"]. simpl. rewrite Hm.
      apply field_eq_scalar. destruct H1 as [H1|H1]; [|congruence].
      apply String.eqb_neq in E. done.
    + rewrite build_match_fuel_type in Hk.
      destruct (sel_fuel ui) as [|x l] eqn:E; [done|]. injection Hk as <-.
      change (py_split "." "fuel_type") with ["fuel_type"]. simpl get_path. rewrite Hf.
      apply (proj2 (fuel_in_selection f (x :: l))). by destruct H2.
    + rewrite build_match_dealer_id in Hk. destruct o as [n|]; [|done].
      destruct (n =? 0) eqn:E; [done|]. injection Hk as <-.
      change (py_split "." "dealer_id") with ["dealer_id"]. simpl. rewrite Hd.
      apply field_eq_scalar. apply Z.eqb_neq in E.
      destruct H3 as [?|[?|?]]; congruence.
    + rewrite build_match_price in Hk. injection Hk as <-.
      change (py_split "." "price") with ["price"]. simpl get_path. rewrite Hp.
      by apply range_holds.
    + rewrite build_match_year in Hk. injection Hk as <-.
      change (py_split "." "year_of_manufacturing") with ["year_of_manufacturing"].
      simpl get_path. rewrite Hy. by apply range_holds.
Qed.

(** ** Dealer entries that do not parse *)

(** X16.  The sidebar entry of a dealer whose key is an ASCII string without
    a bar that [int()] does not read (an identifier such as "D01") does not
    parse: [parse_dealer] raises the exception [int()] raises on the key,
    and a run of the script with that entry selected ends in an exception. *)
Theorem non_integer_dealer_entry
    (bson_leb : option value → option value → bool) (to_numeric : list cell → list cell)
    (db : database) (ui : sidebar) (selected_key : string) (nows : clock)
    (k : string) (v : scalar) (e : exn) :
  all_chars is_ascii k = true →
  all_chars not_bar k = true →
  py_int k = Raise e →
  sel_dealer ui = dealer_label k v →
  parse_dealer (sel_dealer ui) = Raise e
  ∧ ∃ e', app bson_leb to_numeric db ui selected_key nows = Raise e'.
Proof.
  intros _ Hk He Hsel.
  assert (parse_dealer (sel_dealer ui) = Raise e) as Hp.
  { rewrite Hsel, parse_dealer_label_key by done. by rewrite He. }
  split; [done|]. unfold app.
  destruct (load_filter_options bson_leb db) as [opts|e0]; simpl; [|by eauto].
  destruct (sorted_truthy (manufacturers opts)); simpl; [|by eauto].
  destruct (sorted_truthy (fuel_types opts)); simpl; [|by eauto].
  destruct (py_int_of (MIN_PRICE opts)); simpl; [|by eauto].
  destruct (py_int_of (MAX_PRICE opts)); simpl; [|by eauto].
  destruct (py_int_of (MIN_YEAR opts)); simpl; [|by eauto].
  destruct (py_int_of (MAX_YEAR opts)); simpl; [|by eauto].
  rewrite Hp. simpl. by eauto.
Qed.

(** ** Missing columns of the sample *)

Lemma DataFrame_of_empty (records : list doc) :
  df_empty (DataFrame_of records) = false ↔ Exists (λ d : doc, d ≠ ∅) records.
Proof.
  unfold df_empty. rewrite orb_false_iff, !bool_decide_eq_false. split.
  - intros [_ Hcols]. apply Exists_exists.
    destruct (df_columns (DataFrame_of records)) as [|[c col] cols] eqn:E; [done|].
    destruct (decide (Exists (λ d : doc, is_Some (d !! c)) records)) as [Hex|Hn].
    + apply Exists_exists in Hex as (d & Hd & [x Hx]). exists d. split; [done|].
      intros ->. by rewrite lookup_empty in Hx.
    + pose proof (DataFrame_of_no_column _ _ Hn) as H. rewrite E in H. simpl in H.
      by rewrite decide_True in H.
  - intros (d & Hd & Hne)%Exists_exists.
    apply map_choose in Hne as (c & x & Hx).
    assert (Exists (λ d : doc, is_Some (d !! c)) records) as Hex.
    { apply Exists_exists. exists d. split; [done|]. by exists x. }
    pose proof (DataFrame_of_column _ _ Hex) as Hc. split.
    + simpl. destruct records; [by apply not_elem_of_nil in Hd|done].
    + intros E. by rewrite E in Hc.
Qed.

(** X17.  The sample raises [KeyError] exactly when some sampled document has
    a field but no sampled document has a price, or none has a mileage: the
    frame then lacks the column that is read.  The coercion being a function
    that returns a column, the sample raises nothing else. *)
Theorem fetch_price_mileage_key_error (to_numeric : list cell → list cell)
    (cars : list doc) (q : gmap string cond) :
  let sample := price_mileage_cursor cars q 2000 in
  (fetch_price_mileage to_numeric cars q 2000 = Raise KeyError
   ↔ Exists (λ d : doc, d ≠ ∅) sample
     ∧ ¬ (Exists (λ d : doc, is_Some (d !! "price")) sample
          ∧ Exists (λ d : doc, is_Some (d !! "mileage")) sample))
  ∧ ∀ e, fetch_price_mileage to_numeric cars q 2000 = Raise e → e = KeyError.
Proof.
  intros sample.
  assert (∀ r, fetch_price_mileage to_numeric cars q 2000 = Ok r →
               (fetch_price_mileage to_numeric cars q 2000 = Raise KeyError ↔ False)
               ∧ ∀ e, fetch_price_mileage to_numeric cars q 2000 = Raise e → e = KeyError)
    as Hok.
  { intros r ->. split; [|done]. by split. }
  assert (fetch_price_mileage to_numeric cars q 2000 = Raise KeyError →
          (fetch_price_mileage to_numeric cars q 2000 = Raise KeyError ↔ True)
          ∧ ∀ e, fetch_price_mileage to_numeric cars q 2000 = Raise e → e = KeyError)
    as Hraise.
  { intros ->. split; [done|]. by intros e [= <-]. }
  destruct (df_empty (DataFrame_of sample)) eqn:Hemp.
  { destruct (Hok (mk_df O [])) as [-> H2].
    { unfold fetch_price_mileage. fold sample. by rewrite Hemp. }
    split; [|done]. split; [done|]. intros [Hex _].
    apply DataFrame_of_empty in Hex. congruence. }
  assert (Exists (λ d : doc, d ≠ ∅) sample) as Hex by by apply DataFrame_of_empty.
  destruct (decide (Exists (λ d : doc, is_Some (d !! "price")) sample)) as [Hp|Hp].
  - pose proof (DataFrame_of_column _ _ Hp) as Hp0.
    destruct (decide (Exists (λ d : doc, is_Some (d !! "mileage")) sample)) as [Hm|Hm].
    + edestruct Hok as [-> H2].
      { unfold fetch_price_mileage. fold sample. rewrite Hemp.
        rewrite (df_get_column _ _ _ Hp0). simpl.
        unfold df_get. rewrite df_set_column by by eexists. rewrite decide_False by done.
        rewrite (DataFrame_of_column _ _ Hm). simpl. reflexivity. }
      split; [|done]. split; [done|]. intros [_ Hn]. by destruct Hn.
    + destruct Hraise as [-> H2].
      { unfold fetch_price_mileage. fold sample. rewrite Hemp.
        rewrite (df_get_column _ _ _ Hp0). simpl.
        unfold df_get. rewrite df_set_column by by eexists. rewrite decide_False by done.
        by rewrite (DataFrame_of_no_column _ _ Hm). }
      split; [|done]. split; [|done]. intros _. split; [done|]. by intros [_ ?].
  - destruct Hraise as [-> H2].
    { unfold fetch_price_mileage. fold sample. rewrite Hemp.
      unfold df_get. by rewrite (DataFrame_of_no_column _ _ Hp). }
    split; [|done]. split; [|done]. intros _. split; [done|]. by intros [? _].
Qed.

(** ** The statements at the small collection *)

(** Decide a closed proposition by evaluation. *)
Ltac decide_by_compute := refine (bool_decide_unpack _ _); vm_compute; exact I.
Ltac equal_by_compute := vm_compute; reflexivity.

Lemma coerce_cells_contract col c :
  c ∈ coerce_cells col → is_na c = true ∨ is_num c = true.
Proof.
  unfold coerce_cells. intros (x & -> & _)%list_elem_of_fmap.
  destruct x as [|[[[]|]|]|]; simpl; auto.
  destruct (py_int s); auto.
Qed.

Lemma example_ids_well_formed : ids_well_formed example_cars.
Proof. split; decide_by_compute. Qed.

Example manufacturer_distribution_example :
  manufacturer_distribution_pipeline example_cars example_match = [(vstr "Toyota", 3%nat)].
Proof. equal_by_compute. Qed.

Example fuel_distribution_unfiltered_example :
  fuel_distribution_pipeline example_cars ∅
  = [(vstr "Petrol", 4%nat); (vstr "Diesel", 1%nat)].
Proof. equal_by_compute. Qed.

Example accident_severity_example :
  accident_severity_pipeline example_cars example_match
  = [(vstr "Minor", 2%nat); (vstr "Major", 1%nat)].
Proof. equal_by_compute. Qed.

Example service_frequency_example :
  service_frequency_pipeline (at_instant (mk_datetime 2025 6 15 34200000))
    example_cars example_match
  = Ok [(Some 2020, 1%nat); (Some 2023, 2%nat)].
Proof. equal_by_compute. Qed.

Example fetch_price_mileage_example :
  fetch_price_mileage coerce_cells example_cars example_match 2000
  = Ok (dropna (df_set "mileage" [Num (inject_Z 42000); NA; Num (inject_Z 15000)]
                  (df_set "price" [Num (inject_Z 8000); Num (inject_Z 12000); Num (inject_Z 16000)]
                     (DataFrame_of (price_mileage_cursor example_cars example_match 2000))))).
Proof. equal_by_compute. Qed.

Example fetch_price_mileage_rows_example :
  df_index <$> fetch_price_mileage coerce_cells example_cars example_match 2000 = Ok 2%nat.
Proof. equal_by_compute. Qed.

Example parse_dealer_example : parse_dealer "7 | Harbour Cars" = Ok (Some 7).
Proof. reflexivity. Qed.

Example py_int_underscore_example : py_int " -1_000" = Ok (-1000).
Proof. reflexivity. Qed.

Example py_int_bad_example : py_int "1__0" = Raise ValueError.
Proof. reflexivity. Qed.

Lemma avg_price_spec_witness :
  assoc (vstr "Toyota") (avg_price_by_manufacturer_pipeline example_cars example_match)
  = Some (Some (inject_Z 12000)).
Proof.
  destruct (avg_price_spec example_cars example_match (vstr "Toyota")) as (_ & Hmean & _).
  destruct Hmean as (Hrow & _ & Hinteger);
    [decide_by_compute|decide_by_compute|equal_by_compute|equal_by_compute|].
  rewrite Hrow, (Hinteger 12000) by equal_by_compute. reflexivity.
Defined.

(** The mean of 8000, 8000 and 9000 is not a double: the row holds the
    double nearest to 25000 / 3, which is 8333.333333333334. *)
Lemma avg_price_is_rounded :
  ∃ a, assoc (vstr "Kia")
         (avg_price_by_manufacturer_pipeline kia_cars (build_match any_car_sidebar None))
       = Some (Some a)
       ∧ ¬ Qeq a (mean (omap price_of
                          (filter (λ d, expr ["manufacturer"] d = vstr "Kia")
                             (find (build_match any_car_sidebar None) kia_cars)))).
Proof.
  exists (4581298449066667 # 549755813888)%Q. split; [equal_by_compute|].
  intros H. vm_compute in H. discriminate H.
Qed.


Lemma service_frequency_spec_witness :
  ∃ rows,
    service_frequency_pipeline (at_instant (mk_datetime 2025 6 15 34200000))
      example_cars example_match = Ok rows
    ∧ assoc (Some 2020) rows = Some 1%nat
    ∧ assoc (Some 2023) rows = Some 2%nat.
Proof.
  destruct (service_frequency_spec (at_instant (mk_datetime 2025 6 15 34200000))
              (mk_datetime 2020 6 15 0) example_cars example_match eq_refl)
    as (rows & Hrun & _ & Hrow & _).
  exists rows. split; [exact Hrun|].
  rewrite !Hrow. split; equal_by_compute.
Defined.




Lemma dealer_name_spec_witness :
  (∃ s, vehicle_summary_of example_dealers car2 = Ok s ∧ shown_dealer s = SStr "Unknown")
  ∧ (∃ s, vehicle_summary_of example_dealers car1 = Ok s
          ∧ shown_dealer s = SStr "Harbour Cars").
Proof.
  split.
  - apply (dealer_name_spec example_dealers car2 (SInt 99)); [done|equal_by_compute|].
    apply (Forall_forall (λ dl : gmap string scalar, dl !! "DealerID" ≠ Some (SInt 99))).
    decide_by_compute.
  - destruct (dealer_name_spec example_dealers car1 (SInt 7)) as [_ Hfound];
      [done|equal_by_compute|].
    destruct Hfound as (dl & Hone & _ & _ & Hname).
    { exists {[ "DealerID" := SInt 7; "DealerName" := SStr "Harbour Cars" ]}.
      split; [decide_by_compute|equal_by_compute]. }
    apply Hname.
    assert (find_one_dealer example_dealers (car1 !! "dealer_id")
            = Some {[ "DealerID" := SInt 7; "DealerName" := SStr "Harbour Cars" ]}) as Hdl
      by equal_by_compute.
    rewrite Hdl in Hone. injection Hone as <-. equal_by_compute.
Defined.

Lemma service_frequency_leap_day_witness :
  service_frequency_pipeline (at_instant (mk_datetime 2024 2 29 34200000))
    example_cars example_match = Raise ValueError.
Proof.
  apply (service_frequency_leap_day (at_instant (mk_datetime 2024 2 29 34200000)));
    reflexivity.
Defined.

Lemma empty_collection_startup_witness :
  load_filter_options (λ _ _, true) (mk_database [] example_dealers) = Raise TypeError
  ∧ app (λ _ _, true) coerce_cells (mk_database [] example_dealers) example_sidebar "1"
      (at_instant (mk_datetime 2025 6 15 0)) = Raise TypeError.
Proof.
  destruct (empty_collection_startup (λ _ _, true) coerce_cells example_dealers
              example_sidebar "1" (at_instant (mk_datetime 2025 6 15 0)))
    as (_ & e & Hload & Happ & He).
  assert (e = TypeError) as -> by (apply He; decide_by_compute).
  split; [exact Hload|exact Happ].
Defined.

(** ** The further statements at the small collection *)

Lemma int_leb_total a b : int_leb a b = true ∨ int_leb b a = true.
Proof.
  unfold int_leb. destruct (int_rank a) as [x|], (int_rank b) as [y|]; auto.
  rewrite !Z.leb_le. lia.
Qed.

Lemma int_leb_trans a b c :
  int_leb a b = true → int_leb b c = true → int_leb a c = true.
Proof.
  unfold int_leb.
  destruct (int_rank a) as [x|], (int_rank b) as [y|], (int_rank c) as [z|];
    try done.
  rewrite !Z.leb_le. lia.
Qed.

Lemma keyed_ids_well_formed : ids_well_formed keyed_cars.
Proof. split; decide_by_compute. Qed.

Lemma parse_dealer_round_trip_witness :
  parse_dealer "7 | Harbour Cars" = Ok (Some 7)
  ∧ build_match example_sidebar (Some 7) !! "dealer_id" = Some (CEq (SInt 7)).
Proof.
  destruct (parse_dealer_round_trip 7 (SStr "Harbour Cars") example_sidebar) as [Hparse Hmatch].
  split; [exact Hparse|]. apply Hmatch. lia.
Defined.

Lemma picked_car_is_found_witness :
  get_car_detail keyed_cars (car_id_of_key "A17") = Some car_text_id
  ∧ get_car_detail keyed_cars (car_id_of_key "2") = Some car2.
Proof.
  split.
  - apply (picked_car_is_found keyed_cars car_text_id (SStr "A17") keyed_ids_well_formed).
    + decide_by_compute.
    + equal_by_compute.
    + right. exists "A17", ValueError. split; [|split]; reflexivity.
  - apply (picked_car_is_found keyed_cars car2 (SInt 2) keyed_ids_well_formed).
    + decide_by_compute.
    + equal_by_compute.
    + left. exists 2. split; [reflexivity|lia].
Defined.

Lemma numeric_string_id_not_found_witness :
  get_car_detail keyed_cars (car_id_of_key "42") = None
  ∧ history_viewer keyed_db ∅ "42" = Ok NoDetail.
Proof.
  destruct (numeric_string_id_not_found keyed_db ∅ car_digit_id "42" 42
              keyed_ids_well_formed) as (_ & _ & Hnone).
  - decide_by_compute.
  - equal_by_compute.
  - reflexivity.
  - simpl. lia.
  - reflexivity.
  - lia.
  - destruct Hnone as [Hget Hview].
    { apply (Forall_forall (λ d : doc, d !! "_id" ≠ Some (One (Sc (SInt 42))))).
      decide_by_compute. }
    split; [exact Hget|]. eapply Hview. equal_by_compute.
Defined.

Lemma service_cutoff_ordinary_day_witness :
  service_cutoff example_now = Ok (mk_datetime 2020 6 15 0)
  ∧ ∃ rows, service_frequency_pipeline example_now example_cars example_match = Ok rows.
Proof.
  apply (service_cutoff_ordinary_day (mk_datetime 2025 6 15 34200000)
           example_cars example_match).
  - reflexivity.
  - simpl. lia.
  - simpl. lia.
Defined.

Lemma no_data_panels_witness :
  panel_of "No data available."
    (manufacturer_distribution_pipeline example_cars (build_match tesla_sidebar None))
  = Info "No data available.".
Proof.
  destruct (no_data_panels example_cars (build_match tesla_sidebar None)) as [[_ Hnone] _].
  apply Hnone. equal_by_compute.
Defined.

Lemma no_accident_data_panel_witness :
  panel_of "No accident data." (accident_severity_pipeline [car3; car5] ∅)
  = Info "No accident data.".
Proof.
  destruct (no_accident_data_panel [car3; car5] ∅) as [_ Hnone].
  apply Hnone. decide_by_compute.
Defined.

Lemma service_years_are_integers_witness :
  ∃ rows ys,
    service_frequency_pipeline example_now example_cars example_match = Ok rows
    ∧ years_as_int rows = Ok ys.
Proof.
  destruct (service_years_are_integers example_now (mk_datetime 2020 6 15 0)
              example_cars example_match eq_refl) as (rows & ys & Hrun & Hys & _).
  exists rows, ys. split; [exact Hrun|exact Hys].
Defined.

Lemma fetch_cars_list_spec_witness :
  (∃ l, fetch_cars_list example_cars example_match 500 = Ok l
        ∧ (length l ≤ 500)%nat
        ∧ Forall2 listed_as l (take 500 (find example_match example_cars)))
  ∧ fetch_cars_list [<["_id" := vint 9]> ∅] ∅ 500 = Raise KeyError.
Proof.
  split.
  - apply (fetch_cars_list_spec example_cars example_match).
    unfold listable. decide_by_compute.
  - apply (fetch_cars_list_spec [<["_id" := vint 9]> ∅] ∅).
    unfold listable. decide_by_compute.
Defined.

Lemma dealers_map_lookup_witness :
  example_dealers_map !! "7" = last (names_for "7" example_dealers).
Proof.
  destruct (dealers_map_lookup example_dealers example_dealers_map) as [_ Hkey].
  - equal_by_compute.
  - apply Hkey.
Defined.

Lemma load_filter_options_bounds_witness :
  ∃ opts,
    load_filter_options int_leb example_db = Ok opts
    ∧ ∀ x, x ∈ example_cars →
           int_leb (Some (MIN_PRICE opts)) (x !! "price") = true
           ∧ int_leb (x !! "price") (Some (MAX_PRICE opts)) = true.
Proof.
  destruct (load_filter_options_bounds int_leb int_leb_total int_leb_trans example_db)
    as (opts & Hload & _ & _ & _ & _ & _ & _ & Hbounds).
  - decide_by_compute.
  - decide_by_compute.
  - decide_by_compute.
  - exists opts. split; [exact Hload|]. intros x Hx.
    destruct (Hbounds x Hx) as (Hmin & Hmax & _). split; [exact Hmin|exact Hmax].
Defined.

Lemma no_page_on_leap_day_witness :
  ∃ e, app int_leb coerce_cells example_db example_sidebar "1" leap_day_now = Raise e.
Proof.
  destruct (no_page_on_leap_day int_leb coerce_cells example_db example_sidebar "1"
              leap_day_now) as [_ Hraise]; [reflexivity..|].
  apply Hraise. reflexivity.
Defined.

Lemma vehicle_without_dealer_witness :
  (∃ s, vehicle_summary_of example_dealers car_text_id = Ok s
        ∧ shown_dealer s = SStr "Unknown")
  ∧ (∃ s, vehicle_summary_of (example_dealers ++ [walk_in_dealer]) car_text_id = Ok s
          ∧ shown_dealer s = SStr "Walk-in").
Proof.
  assert (Forall (λ dl : dealer, ∃ v, dl !! "DealerID" = Some v ∧ v ≠ SNull) example_dealers)
    as Hids.
  { unfold example_dealers.
    apply Forall_cons. split; [exists (SInt 0); split; [equal_by_compute|congruence]|].
    apply Forall_cons. split; [exists (SInt 7); split; [equal_by_compute|congruence]|].
    apply Forall_nil_2. }
  split.
  - destruct (vehicle_without_dealer example_dealers car_text_id) as [Hunknown _].
    + equal_by_compute.
    + apply Hunknown. exact Hids.
  - destruct (vehicle_without_dealer (example_dealers ++ [walk_in_dealer]) car_text_id)
      as [_ Hfirst].
    + equal_by_compute.
    + apply (Hfirst example_dealers walk_in_dealer []).
      * reflexivity.
      * exact Hids.
      * left. equal_by_compute.
      * equal_by_compute.
Defined.

Lemma compiled_predicate_selects_witness : matches example_match car1 = true.
Proof.
  apply (compiled_predicate_selects example_sidebar None car1 "Toyota" "Petrol" 7 8000 2016).
  - equal_by_compute.
  - equal_by_compute.
  - equal_by_compute.
  - equal_by_compute.
  - equal_by_compute.
  - split; [by right|]. split; [right; decide_by_compute|]. split; [by left|].
    simpl. lia.
Defined.

Lemma non_integer_dealer_entry_witness :
  parse_dealer "D01 | Depot" = Raise ValueError
  ∧ ∃ e, app int_leb coerce_cells example_db depot_sidebar "1" example_now = Raise e.
Proof.
  apply (non_integer_dealer_entry int_leb coerce_cells example_db depot_sidebar "1"
           example_now "D01" (SStr "Depot") ValueError); reflexivity.
Defined.

Lemma fetch_price_mileage_key_error_witness :
  fetch_price_mileage coerce_cells [car_text_id] ∅ 2000 = Raise KeyError.
Proof.
  destruct (fetch_price_mileage_key_error coerce_cells [car_text_id] ∅) as [[_ Hraise] _].
  apply Hraise. split; decide_by_compute.
Defined.
